(** * video-renderer: the render-job pipeline of [src/server.js]

    A shallow embedding of the Express server of the repository: the JSON
    request payload as a JavaScript value, the in-memory job table as a
    finite map, [processJob] as a program over the two effects it has
    (writes to the job table and awaited calls to the outside world), the
    three HTTP handlers as functions on the server state, and the server as
    a transition system.  A program is run against a world, which settles
    every promise, or on a host, where the write stream of the download may
    also fail with an error that nothing handles. *)

From Stdlib Require Import QArith Qcanon.
From stdpp Require Import numbers pretty strings list fin_maps gmap.
Set Warnings "-register-all".
Close Scope Qc_scope.
Close Scope Q_scope.
Open Scope string_scope.

(** ** JavaScript values *)

(** A JavaScript number.  The finite ones are kept as exact rationals (every
    finite double is one); [-0] is identified with [0], from which no
    operation of the program tells it apart ([<=], [||], [typeof],
    [Number.isNaN] and conversion to a string all treat them alike). *)
Inductive number : Type :=
| NaN
| Infinity
| NegInfinity
| Finite (q : Qc).

(** The values a decoded JSON body is made of, and [undefined], which
    reading an absent property gives.  An object is the list of its own
    properties; the first binding of a key is the one that counts. *)
Inductive value : Type :=
| VUndefined
| VNull
| VBool (b : bool)
| VNum (n : number)
| VStr (s : string)
| VArr (elems : list value)
| VObj (props : list (string * value)).

Definition num (z : Z) : value := VNum (Finite (Qc_of_Z z)).

(** ** Thrown errors and the error monad *)

Record exn : Type := mkExn { exn_name : string; exn_message : string }.

Definition Error (msg : string) : exn := mkExn "Error" msg.
Definition TypeError (msg : string) : exn := mkExn "TypeError" msg.

(** [String(e)] on an error object: [Error.prototype.toString]. *)
Definition String_of_exn (e : exn) : string :=
  if String.eqb (exn_name e) "" then exn_message e
  else if String.eqb (exn_message e) "" then exn_name e
  else exn_name e ++ ": " ++ exn_message e.

(** A synchronous computation either throws or returns. *)
Definition Res (A : Type) : Type := (exn + A)%type.

Definition ret {A} (a : A) : Res A := inr a.
Definition throw {A} (e : exn) : Res A := inl e.
Definition bindR {A B} (r : Res A) (k : A -> Res B) : Res B :=
  match r with
  | inl e => inl e
  | inr a => k a
  end.

Notation "'let*' x ':=' e 'in' k" := (bindR e (fun x => k))
  (at level 10, x pattern, e at level 100, k at level 200).

(** Code that fills the array [filterParts]: it returns or throws, and in
    both cases leaves the array as it is at that point. *)
Definition Build (A : Type) : Type := list string -> Res A * list string.

Definition bindB {A B} (m : Build A) (k : A -> Build B) : Build B :=
  fun parts =>
    match m parts with
    | (inl e, parts') => (inl e, parts')
    | (inr a, parts') => k a parts'
    end.

Definition liftB {A} (r : Res A) : Build A := fun parts => (r, parts).

Notation "'let+' x ':=' e 'in' k" := (bindB e (fun x => k))
  (at level 10, x pattern, e at level 100, k at level 200).

(** ** Operators of the language used by the program *)

Definition typeof (v : value) : string :=
  match v with
  | VUndefined => "undefined"
  | VNull => "object"
  | VBool _ => "boolean"
  | VNum _ => "number"
  | VStr _ => "string"
  | VArr _ | VObj _ => "object"
  end.

(** [Number.isNaN(v)]: false on everything that is not the number NaN. *)
Definition Number_isNaN (v : value) : bool :=
  match v with
  | VNum NaN => true
  | _ => false
  end.

Definition Array_isArray (v : value) : bool :=
  match v with
  | VArr _ => true
  | _ => false
  end.

(** ToBoolean: the falsy values are [undefined], [null], [false], [0],
    [NaN] and the empty string. *)
Definition truthy (v : value) : bool :=
  match v with
  | VUndefined | VNull => false
  | VBool b => b
  | VNum NaN => false
  | VNum (Finite q) => negb (bool_decide (q = Qc_of_Z 0))
  | VNum _ => true
  | VStr s => negb (String.eqb s "")
  | VArr _ | VObj _ => true
  end.

(** [arr.push(x1, ..., xn)] *)
Definition push {A} (arr : list A) (xs : list A) : list A := (arr ++ xs)%list.

(** [filterParts.push(x1, ..., xn)] *)
Definition pushB (xs : list string) : Build unit :=
  fun filterParts => (inr tt, push filterParts xs).

(** [a || b] *)
Definition js_or (a b : value) : value := if truthy a then a else b.

(** [x <= y] on numbers (IEEE: false as soon as one side is NaN). *)
Definition number_le (x y : number) : bool :=
  match x, y with
  | NaN, _ | _, NaN => false
  | NegInfinity, _ => true
  | _, Infinity => true
  | Infinity, _ => false
  | _, NegInfinity => false
  | Finite p, Finite q => bool_decide (p ≤ q)%Qc
  end.

(** [a <= b], for the operands that reach it in this program: both sides
    have passed [requireNumber] and are numbers.  Other operands are outside
    the fragment (the general operator converts them first). *)
Definition js_le (a b : value) : bool :=
  match a, b with
  | VNum x, VNum y => number_le x y
  | _, _ => false
  end.

Fixpoint lookup_own (props : list (string * value)) (k : string) : option value :=
  match props with
  | [] => None
  | (k', v) :: rest => if String.eqb k' k then Some v else lookup_own rest k
  end.

(** [o.k] for the property names the program reads ([sourceUrl], [clips],
    [start], [end], [width], [height], [fps] and [length]).  None of them is
    inherited from a built-in prototype, so on a primitive, and on an object
    without that own property, the read gives [undefined]; on [undefined]
    and [null] it throws. *)
Definition getProp (o : value) (k : string) : Res value :=
  match o with
  | VUndefined | VNull =>
      throw (TypeError ("Cannot read properties of " ++
                        (if o is VNull then "null" else "undefined") ++
                        " (reading '" ++ k ++ "')"))
  | VObj props => ret (default VUndefined (lookup_own props k))
  | VArr l => ret (if String.eqb k "length" then num (Z.of_nat (length l)) else VUndefined)
  | VStr s => ret (if String.eqb k "length" then num (Z.of_nat (String.length s)) else VUndefined)
  | VBool _ | VNum _ => ret VUndefined
  end.

(** [o?.k] *)
Definition getPropOpt (o : value) (k : string) : value :=
  match o with
  | VUndefined | VNull => VUndefined
  | _ => match getProp o k with inr v => v | inl _ => VUndefined end
  end.

(** ** The job table (server.js, line 19 and [setJob], lines 131-134)

    [jobs] is a [Map] from job identifiers to job records; a job record is
    an object used as a map from field names to values. *)

Abbreviation Job := (gmap string value).
Abbreviation JobTable := (gmap string (gmap string value)).

(** [{ ...prev, ...patch }]: the fields of [patch] win. *)
Definition spread (prev patch : Job) : Job := patch ∪ prev.

(** A stored record is an object, hence truthy: [jobs.get(id) || {}] is the
    empty object exactly when [id] has no record. *)
Definition setJob (id : string) (patch : Job) (jobs : JobTable) : JobTable :=
  let prev := default ∅ (jobs !! id) in
  <[id := spread prev patch]> jobs.

(** [job.k] on a job record *)
Definition field (job : Job) (k : string) : value := default VUndefined (job !! k).

(** ** Asynchronous programs

    [processJob] is an [async] function.  Its two effects are kept as the
    nodes of a tree: a write to the job table, and an [await] of a call to
    the outside world, which resolves with a result or rejects with an
    error.  Between two awaits the program runs without interruption. *)

Record FetchResponse : Type := mkFetchResponse {
  resp_ok : bool;
  resp_status : nat;
  resp_statusText : string
}.

(** The awaited calls: [fs.mkdtemp(prefix)], which resolves with the path of
    the new directory; [fetch(url)]; [fs.mkdir(dir, { recursive: true })];
    the promise of lines 141-145, which resolves when the write stream made
    at line 140 for [destPath] has finished and rejects on an error of the
    body of the response; and [execFileP(file, args, { maxBuffer })].  An
    error of the write stream itself settles no promise: see [host] and
    [exec] below. *)
Inductive call : Type -> Type :=
| Mkdtemp (prefix : string) : call string
| Fetch (url : value) : call FetchResponse
| Mkdir (dir : string) : call unit
| PipeToFile (r : FetchResponse) (destPath : string) : call unit
| ExecFile (file : string) (args : list string) (maxBuffer : N) : call unit.

Inductive Proc (A : Type) : Type :=
| Ret (a : A)
| Throw (e : exn)
| SetJob (id : string) (patch : Job) (k : Proc A)
| Await (R : Type) (c : call R) (k : exn + R -> Proc A).

Arguments Ret {A} a.
Arguments Throw {A} e.
Arguments SetJob {A} id patch k.
Arguments Await {A R} c k.

Fixpoint bindP {A B} (p : Proc A) (f : A -> Proc B) : Proc B :=
  match p with
  | Ret a => f a
  | Throw e => Throw e
  | SetJob id patch k => SetJob id patch (bindP k f)
  | Await c k => Await c (fun r => bindP (k r) f)
  end.

Notation "'do*' x ':=' e 'in' k" := (bindP e (fun x => k))
  (at level 10, x pattern, e at level 100, k at level 200).

(** [try { p } catch (e) { h e }] *)
Fixpoint try_catch {A} (p : Proc A) (h : exn -> Proc A) : Proc A :=
  match p with
  | Ret a => Ret a
  | Throw e => h e
  | SetJob id patch k => SetJob id patch (try_catch k h)
  | Await c k => Await c (fun r => try_catch (k r) h)
  end.

(** [await c]: a rejection is thrown at the await. *)
Definition await {R} (c : call R) : Proc R :=
  Await c (fun r => match r with inl e => Throw e | inr v => Ret v end).

(** Synchronous code inside an asynchronous function. *)
Definition lift {A} (r : Res A) : Proc A :=
  match r with
  | inl e => Throw e
  | inr a => Ret a
  end.

Definition setJobP (id : string) (patch : Job) : Proc unit := SetJob id patch (Ret tt).

(** [path.join(dir, name)] and [path.dirname(p)], on the paths the program
    builds: a directory without a trailing separator and a plain name. *)
Definition path_join (dir name : string) : string := dir ++ "/" ++ name.

Fixpoint before_last_slash (p : string) : option string :=
  match p with
  | EmptyString => None
  | String c rest =>
      match before_last_slash rest with
      | Some d => Some (String c d)
      | None => if String.eqb (String c EmptyString) "/" then Some EmptyString else None
      end
  end.

Definition path_dirname (p : string) : string :=
  match before_last_slash p with
  | Some EmptyString => "/"
  | Some d => d
  | None => "."
  end.

(** ** [download] (server.js, lines 136-146)

    Lines 140-145 make the write stream of [destPath] and await the promise
    that the [finish] event of that stream resolves and an [error] event of
    the body rejects: the call [PipeToFile].  The [error] event of the write
    stream, for which the program has no listener, is no outcome of that
    promise; it is what a [host] adds to a world. *)

Definition download (url : value) (destPath : string) : Proc unit :=
  do* r := await (Fetch url) in
  if negb (resp_ok r)
  then Throw (Error ("Download failed: " ++ pretty (resp_status r) ++ " " ++ resp_statusText r))
  else
    do* _ := await (Mkdir (path_dirname destPath)) in
    await (PipeToFile r destPath).

(** The argument list of the render engine, lines 107-121 of [processJob]. *)
Definition ffArgs (srcPath : string) (filterParts : list string) (outPath : string) : list string :=
  [ "-y";
    "-i"; srcPath;
    "-filter_complex"; String.concat ";" filterParts;
    "-map"; "[vfinal]";
    "-map"; "[aout]";
    "-c:v"; "libx264";
    "-preset"; "veryfast";
    "-crf"; "20";
    "-movflags"; "+faststart";
    "-pix_fmt"; "yuv420p";
    "-c:a"; "aac";
    "-b:a"; "192k";
    outPath ].

(** ** Running a program to its end

    The outside world settles every awaited promise.  [run] gives the
    completion of the program, the job table it leaves, and the writes it
    made, in order. *)

Definition world : Type := forall R : Type, call R -> exn + R.

Fixpoint run {A} (w : world) (p : Proc A) (jobs : JobTable)
  : Res A * JobTable * list (string * Job) :=
  match p with
  | Ret a => (inr a, jobs, [])
  | Throw e => (inl e, jobs, [])
  | SetJob id patch k =>
      let '(r, jobs', log) := run w k (setJob id patch jobs) in
      (r, jobs', (id, patch) :: log)
  | Await c k => run w (k (w _ c)) jobs
  end.

(** The job tables a sequence of writes goes through, the first included. *)
Fixpoint tables (jobs : JobTable) (log : list (string * Job)) : list JobTable :=
  match log with
  | [] => [jobs]
  | (id, patch) :: rest => jobs :: tables (setJob id patch jobs) rest
  end.

Definition status_of (id : string) (jobs : JobTable) : value :=
  match jobs !! id with
  | Some job => field job "status"
  | None => VUndefined
  end.

(** The values the [status] field of job [id] takes while [p] runs. *)
Definition status_history {A} (w : world) (p : Proc A) (id : string) (jobs : JobTable)
  : list value :=
  status_of id <$> tables jobs (run w p jobs).2.

(** An awaited call, whatever the type of its answer, and the calls a
    program makes against a world, in order. *)
Definition any_call : Type := { R : Type & call R }.

Definition a_call {R : Type} (c : call R) : any_call := existT R c.

Fixpoint calls {A} (w : world) (p : Proc A) : list any_call :=
  match p with
  | Ret _ | Throw _ => []
  | SetJob _ _ k => calls w k
  | Await c k => a_call c :: calls w (k (w _ c))
  end.

(** The file, arguments and buffer bound of a call to the render engine. *)
Definition engine_call (a : any_call) : option (string * list string * N) :=
  match projT2 a with
  | ExecFile file args maxBuffer => Some (file, args, maxBuffer)
  | _ => None
  end.

(** ** Events that settle no promise

    [run] covers the courses in which every awaited promise settles.  One
    event of the program is tied to no promise: the write stream [ws] of
    line 140 is given a listener for [finish] (line 144) and none for
    [error]; line 143 listens for the errors of [r.body] only.  When the
    stream fails (the file cannot be opened, the disk is full) while the
    program waits at lines 141-145, its [error] event has no listener, the
    error is thrown from the event loop, where no [try] and no promise
    catches it, and the process ends.  A host is a world together with the
    write streams that fail, by destination. *)

Record host : Type := mkHost {
  answers : world;
  ws_error : string -> option exn
}.

(** The error, if any, that ends the process while the program waits for
    [c]. *)
Definition unhandled {R : Type} (h : host) (c : call R) : option exn :=
  match c with
  | PipeToFile _ destPath => ws_error h destPath
  | _ => None
  end.

(** How a program ends on a host: its promise settles, or the process ends
    on an error that nothing handles. *)
Inductive ending (A : Type) : Type :=
| settled (r : Res A)
| process_ends (e : exn).

Arguments settled {A} r.
Arguments process_ends {A} e.

(** [exec] gives the ending, the job table at that point and the writes
    made. *)
Fixpoint exec {A} (h : host) (p : Proc A) (jobs : JobTable)
  : ending A * JobTable * list (string * Job) :=
  match p with
  | Ret a => (settled (inr a), jobs, [])
  | Throw e => (settled (inl e), jobs, [])
  | SetJob id patch k =>
      let '(r, jobs', log) := exec h k (setJob id patch jobs) in
      (r, jobs', (id, patch) :: log)
  | Await c k =>
      match unhandled h c with
      | Some e => (process_ends e, jobs, [])
      | None => exec h (k (answers h _ c)) jobs
      end
  end.

(** ** The server state and the HTTP handlers (server.js, lines 19-63)

    [jobs] is the job table; [queue] holds the tasks given to the
    single-worker queue that have not started, each the identifier and the
    payload of the [processJob] call it will make; [running] is the task the
    worker is in, stopped at an await. *)

Record server : Type := mkServer {
  jobs : JobTable;
  queue : list (string * value);
  running : option (string * Proc unit)
}.

Definition initial : server := mkServer ∅ [] None.

Inductive body : Type :=
| JsonBody (fields : list (string * value))
| TextBody (text : string)
| Attachment (path : value) (filename : string).

Record response : Type := mkResponse { code : nat; content : body }.

Definition is_undefined (v : value) : bool :=
  match v with
  | VUndefined => true
  | _ => false
  end.

(** [res.status(code).json(obj)]: serialisation leaves out the fields whose
    value is [undefined]. *)
Definition res_json (code : nat) (obj : list (string * value)) : response :=
  mkResponse code (JsonBody (filter (fun kv => is_undefined kv.2 = false) obj)).

(** [x === 0] *)
Definition is_zero (v : value) : bool :=
  match v with
  | VNum (Finite q) => bool_decide (q = Qc_of_Z 0)
  | _ => false
  end.

(** The record a new job starts with, line 35. *)
Definition queued_record : Job :=
  {[ "status" := VStr "queued"; "progress" := num 0; "file" := VNull; "error" := VNull ]}.

(** The record written by the rejection handler of [queue.add], line 37. *)
Definition rejected_record (err : exn) : Job :=
  {[ "status" := VStr "failed"; "progress" := num 0; "file" := VNull;
     "error" := VStr (String_of_exn err) ]}.

(** [GET /render/:jobId], lines 47-56. *)
Definition getStatus (jobId : string) (s : server) : response :=
  match jobs s !! jobId with
  | None => res_json 404 [("error", VStr "Not found")]
  | Some job =>
      res_json 200
        [ ("status", field job "status");
          ("progress", field job "progress");
          ("downloadUrl", if truthy (field job "file")
                          then VStr ("/download/" ++ jobId) else VNull);
          ("error", field job "error") ]
  end.

(** [GET /download/:jobId], lines 59-63. *)
Definition getDownload (jobId : string) (s : server) : response :=
  match jobs s !! jobId with
  | None => mkResponse 404 (TextBody "Not ready")
  | Some job =>
      if negb (truthy (field job "file"))
      then mkResponse 404 (TextBody "Not ready")
      else mkResponse 200 (Attachment (field job "file") "export.mp4")
  end.

(** The worker runs a program up to its next await. *)
Fixpoint run_sync (p : Proc unit) (jobs : JobTable) : JobTable * Proc unit :=
  match p with
  | SetJob id patch k => run_sync k (setJob id patch jobs)
  | _ => (jobs, p)
  end.

(** Where a task stands once it has run up to an await or to its end.  A
    task that ends by throwing rejects the promise of [queue.add], whose
    handler (line 37) replaces the record of the job. *)
Definition settle (jobId : string) (st : JobTable * Proc unit) (queue : list (string * value))
  : server :=
  match st.2 with
  | Ret _ => mkServer st.1 queue None
  | Throw err => mkServer (<[jobId := rejected_record err]> st.1) queue None
  | p => mkServer st.1 queue (Some (jobId, p))
  end.

(** ** The host environment

    What the program takes from its runtime and its dependencies: the
    temporary directory of the operating system, the path of the bundled
    ffmpeg binary, and the decimal rendering of a finite number that is not
    a safe integer, that is, not an integer of magnitude below 2^53.  The
    runtime prints the shortest digits that read back as the same double:
    for a safe integer these are its plain decimal numeral, given below;
    for any other number (a fraction, or an integer from 2^53 on, such as
    2^64, printed 18446744073709552000) they are left to the runtime. *)
Record runtime : Type := mkRuntime {
  shortest_digits : Qc -> string;
  os_tmpdir : string;
  ffmpegPath : string
}.

(** ** Sample inputs

    The request of the scenario of the specification, a runtime, and
    outside worlds that answer every call or fail one of them.  The samples
    only have small integer bounds, so the rendering left to the runtime is
    not called. *)

Definition sample_runtime : runtime :=
  mkRuntime (fun _ => "<digits>") "/tmp" "/usr/bin/ffmpeg".

Definition clip (s e : Z) : value := VObj [("start", num s); ("end", num e)].

Definition two_clips : value :=
  VObj [("sourceUrl", VStr "https://x/video.mp4"); ("clips", VArr [clip 0 5; clip 10 12])].

Definition world_ok : world := fun R c =>
  match c in call R return exn + R with
  | Mkdtemp prefix => inr (prefix ++ "abc123")
  | Fetch _ => inr (mkFetchResponse true 200 "OK")
  | Mkdir _ => inr tt
  | PipeToFile _ _ => inr tt
  | ExecFile _ _ _ => inr tt
  end.

Definition world_unreachable : world := fun R c =>
  match c in call R return exn + R with
  | Fetch _ => inl (TypeError "fetch failed")
  | c => world_ok _ c
  end.

Definition world_engine_fails : world := fun R c =>
  match c in call R return exn + R with
  | ExecFile _ _ _ => inl (Error "Command failed: ffmpeg")
  | c => world_ok _ c
  end.

Definition world_not_found : world := fun R c =>
  match c in call R return exn + R with
  | Fetch _ => inr (mkFetchResponse false 404 "Not Found")
  | c => world_ok _ c
  end.

(** A host on which every promise settles well and the disk is full: the
    write stream of any destination fails. *)
Definition host_disk_full : host :=
  mkHost world_ok (fun _ => Some (Error "ENOSPC: no space left on device, write")).

(** A job table with the one job of the scenario, queued. *)
Definition one_queued : JobTable := {[ "job-1" := queued_record ]}.

Section Renderer.

Context (rt : runtime).

(** [Number::toString] *)
Definition number_to_string (n : number) : string :=
  match n with
  | NaN => "NaN"
  | Infinity => "Infinity"
  | NegInfinity => "-Infinity"
  | Finite q =>
      if bool_decide (Qden q = 1%positive) && bool_decide (Z.abs (Qnum q) < 2 ^ 53)%Z
      then pretty (Qnum q)
      else shortest_digits rt q
  end.

(** ToString, as a template literal applies it.  An array is joined with
    commas, [null] and [undefined] elements giving the empty string.  A
    decoded object has no callable own property: with an own [toString] key
    the conversion finds nothing to call and throws, without one it reaches
    [Object.prototype.toString]. *)
Fixpoint ToString (v : value) : Res string :=
  match v with
  | VUndefined => ret "undefined"
  | VNull => ret "null"
  | VBool b => ret (if b then "true" else "false")
  | VNum n => ret (number_to_string n)
  | VStr s => ret s
  | VArr l =>
      let* strs :=
        (fix each (l : list value) : Res (list string) :=
           match l with
           | [] => ret []
           | x :: rest =>
               let* s := match x with
                         | VUndefined | VNull => ret ""
                         | _ => ToString x
                         end in
               let* ss := each rest in
               ret (s :: ss)
           end) l in
      ret (String.concat "," strs)
  | VObj props =>
      match lookup_own props "toString" with
      | Some _ => throw (TypeError "Cannot convert object to primitive value")
      | None => ret "[object Object]"
      end
  end.

(** ** [requireNumber] (server.js, lines 148-150) *)

Definition requireNumber (v : value) (name : string) : Res unit :=
  if negb (String.eqb (typeof v) "number") || Number_isNaN v
  then throw (Error (name ++ " must be a number"))
  else ret tt.

(** ** The filter graph (server.js, lines 78-102 of [processJob])

    These lines touch neither the job table nor the outside world: they
    fill the local array [filterParts], and may throw while doing so. *)

(** The callback of [cfg.clips.forEach], lines 79-88. *)
Definition clipBody (c : value) (i : nat) : Build unit :=
  let+ start := liftB (getProp c "start") in
  let+ _ := liftB (requireNumber start "clip.start") in
  let+ end_ := liftB (getProp c "end") in
  let+ _ := liftB (requireNumber end_ "clip.end") in
  if js_le end_ start then liftB (throw (Error "clip.end must be > clip.start"))
  else
    let+ s := liftB (ToString start) in
    let+ e := liftB (ToString end_) in
    pushB
      [ "[0:v]trim=start=" ++ s ++ ":end=" ++ e ++ ",setpts=PTS-STARTPTS[v" ++ pretty i ++ "]";
        "[0:a]atrim=start=" ++ s ++ ":end=" ++ e ++ ",asetpts=PTS-STARTPTS[a" ++ pretty i ++ "]" ].

(** [forEach] with the element index; a throw in the callback ends the
    loop. *)
Fixpoint forEach (body : value -> nat -> Build unit) (l : list value) (i : nat) : Build unit :=
  match l with
  | [] => liftB (ret tt)
  | c :: rest => let+ _ := body c i in forEach body rest (S i)
  end.

(** Lines 79-102, on the array declared at line 78. *)
Definition filterGraph (cfg : value) : Build unit :=
  let+ clipsV := liftB (getProp cfg "clips") in
  match clipsV with
  | VArr clips =>
      let+ _ := forEach clipBody clips 0 in
      let vInputs := String.concat "" (imap (fun i _ => "[v" ++ pretty i ++ "]") clips) in
      let aInputs := String.concat "" (imap (fun i _ => "[a" ++ pretty i ++ "]") clips) in
      let+ _ := pushB [vInputs ++ "concat=n=" ++ pretty (length clips) ++ ":v=1:a=0[vout]"] in
      let+ _ := pushB [aInputs ++ "concat=n=" ++ pretty (length clips) ++ ":v=0:a=1[aout]"] in
      let+ w := liftB (getProp cfg "width") in
      let width := js_or w (num 1920) in
      let+ h := liftB (getProp cfg "height") in
      let height := js_or h (num 1080) in
      let+ f := liftB (getProp cfg "fps") in
      let fps := js_or f (num 30) in
      let+ ws := liftB (ToString width) in
      let+ hs := liftB (ToString height) in
      let scale := "scale=" ++ ws ++ ":" ++ hs ++
                   ":force_original_aspect_ratio=decrease,pad=" ++ ws ++ ":" ++ hs ++
                   ":(ow-iw)/2:(oh-ih)/2" in
      let+ fs := liftB (ToString fps) in
      pushB ["[vout]" ++ scale ++ ",fps=" ++ fs ++ "[vfinal]"]
  | VUndefined =>
      liftB (throw (TypeError "Cannot read properties of undefined (reading 'forEach')"))
  | VNull =>
      liftB (throw (TypeError "Cannot read properties of null (reading 'forEach')"))
  | _ => liftB (throw (TypeError "cfg.clips.forEach is not a function"))
  end.

(** The array these lines leave when they return.  When they throw, control
    goes to the [catch] of [processJob] and the array, whatever it holds by
    then, is not used again. *)
Definition buildFilterParts (cfg : value) : Res (list string) :=
  match filterGraph cfg [] with
  | (inl e, _) => inl e
  | (inr _, filterParts) => inr filterParts
  end.

(** ** [processJob] (server.js, lines 67-129) *)

(** The [try] block, lines 69-125. *)
Definition processJob_try (jobId : string) (cfg : value) : Proc unit :=
  do* _ := setJobP jobId {[ "status" := VStr "downloading"; "progress" := num 5 ]} in
  do* tmpDir := await (Mkdtemp (path_join (os_tmpdir rt) "render-")) in
  let srcPath := path_join tmpDir "source.mp4" in
  do* url := lift (getProp cfg "sourceUrl") in
  do* _ := download url srcPath in
  do* _ := setJobP jobId {[ "status" := VStr "preparing"; "progress" := num 12 ]} in
  do* filterParts := lift (buildFilterParts cfg) in
  let outPath := path_join tmpDir "out.mp4" in
  do* _ := setJobP jobId {[ "status" := VStr "rendering"; "progress" := num 20 ]} in
  do* _ := await (ExecFile (ffmpegPath rt) (ffArgs srcPath filterParts outPath)
                          (10 * 1024 * 1024)%N) in
  setJobP jobId {[ "status" := VStr "completed"; "progress" := num 100;
                   "file" := VStr outPath; "tmpDir" := VStr tmpDir ]}.

(** The [catch] block, line 127. *)
Definition processJob_catch (jobId : string) (e : exn) : Proc unit :=
  setJobP jobId {[ "status" := VStr "failed"; "progress" := num 0;
                   "error" := VStr (String_of_exn e) ]}.

Definition processJob (jobId : string) (cfg : value) : Proc unit :=
  try_catch (processJob_try jobId cfg) (processJob_catch jobId).

(** ** [POST /render] (server.js, lines 26-44) *)

(** What the queue, of concurrency one, does when a task is added or ends:
    with the worker free, the oldest waiting task is started at once and
    runs up to its first await; with the worker busy, nothing. *)
Definition start_next (s : server) : server :=
  match running s, queue s with
  | None, (jobId, cfg) :: rest =>
      settle jobId (run_sync (processJob jobId cfg) (jobs s)) rest
  | _, _ => s
  end.

(** [queue.add(() => processJob(jobId, payload))], line 36: the task joins
    the waiting ones, and the queue starts what it can before [add]
    returns. *)
Definition queue_add (jobId : string) (payload : value) (s : server) : server :=
  start_next (mkServer (jobs s) (queue s ++ [(jobId, payload)])%list (running s)).

(** The handler; [jobId] is the identifier [uuid()] returned.  Nothing in
    the [try] block throws, so the [catch] that answers 500 is not
    entered. *)
Definition postRender (jobId : string) (payload : value) (s : server) : response * server :=
  let clips := getPropOpt payload "clips" in
  if negb (truthy (getPropOpt payload "sourceUrl"))
     || negb (Array_isArray clips)
     || is_zero (getPropOpt clips "length")
  then (res_json 400 [("error", VStr "Invalid payload. Need sourceUrl and non-empty clips[]")], s)
  else
    (res_json 200 [("jobId", VStr jobId)],
     queue_add jobId payload
       (mkServer (<[jobId := queued_record]> (jobs s)) (queue s) (running s))).

(** ** The server as a transition system

    A request is accepted at any time; an awaited call of the running task
    completes with whatever the outside world answers; the queue starts its
    oldest task when the worker is free.  The queue of the program does so
    as soon as a task ends; here that step may be taken later, which adds
    interleavings and removes none.  The identifier [uuid()] gives a new
    job is one that no job has.  The states are those of the running
    process: the end of the process on an unhandled error is the matter of
    [exec]. *)

Inductive step : server -> server -> Prop :=
| step_post s jobId payload :
    jobs s !! jobId = None ->
    step s (postRender jobId payload s).2
| step_start jobs0 jobId cfg rest :
    step (mkServer jobs0 ((jobId, cfg) :: rest) None)
         (settle jobId (run_sync (processJob jobId cfg) jobs0) rest)
| step_resume jobs0 queue0 jobId R (c : call R) k (r : exn + R) :
    step (mkServer jobs0 queue0 (Some (jobId, Await c k)))
         (settle jobId (run_sync (k r) jobs0) queue0).

Inductive reachable : server -> Prop :=
| reachable_initial : reachable initial
| reachable_step s s' : reachable s -> step s s' -> reachable s'.

(** The scenario on the server: its request accepted by the idle server,
    and a second request accepted behind it. *)
Definition one_started : server := (postRender "job-1" two_clips initial).2.

Definition one_behind : server := (postRender "job-2" two_clips one_started).2.

(** * Vocabulary of the properties *)

(** A value that [requireNumber] refuses. *)
Definition not_a_number (v : value) : Prop :=
  typeof v ≠ "number" \/ v = VNum NaN.

(** A clip that the loop of lines 79-88 refuses: its bounds cannot be read,
    or one of them is not a number or is NaN, or [end <= start]. *)
Definition refused_clip (c : value) : Prop :=
  match getProp c "start", getProp c "end" with
  | inr s, inr e => not_a_number s \/ not_a_number e \/ js_le e s = true
  | _, _ => True
  end.

(** A finite number, and a clip one of whose bounds is not one, or whose
    bounds are in the wrong order. *)
Definition is_finite_number (v : value) : Prop := exists q : Qc, v = VNum (Finite q).

Definition not_finite_or_inverted (c : value) : Prop :=
  match getProp c "start", getProp c "end" with
  | inr s, inr e => ~ is_finite_number s \/ ~ is_finite_number e \/ js_le e s = true
  | _, _ => True
  end.

(** A clip with numeric bounds [se.1 < se.2], neither of them NaN. *)
Definition valid_clip (c : value) (se : number * number) : Prop :=
  getProp c "start" = inr (VNum se.1) /\
  getProp c "end" = inr (VNum se.2) /\
  se.1 ≠ NaN /\ se.2 ≠ NaN /\
  number_le se.2 se.1 = false.

(** The properties of an object, without those named [k]. *)
Definition omit (k : string) (props : list (string * value)) : list (string * value) :=
  filter (fun kv => kv.1 ≠ k) props.

(** The two trims of clip [i], with bounds [se]. *)
Definition trim_video (i : nat) (se : number * number) : string :=
  "[0:v]trim=start=" ++ number_to_string se.1 ++ ":end=" ++ number_to_string se.2 ++
  ",setpts=PTS-STARTPTS[v" ++ pretty i ++ "]".

Definition trim_audio (i : nat) (se : number * number) : string :=
  "[0:a]atrim=start=" ++ number_to_string se.1 ++ ":end=" ++ number_to_string se.2 ++
  ",asetpts=PTS-STARTPTS[a" ++ pretty i ++ "]".

(** The trim pairs of the clips numbered from [i] on. *)
Fixpoint trim_pairs (i : nat) (times : list (number * number)) : list string :=
  match times with
  | [] => []
  | se :: rest => trim_video i se :: trim_audio i se :: trim_pairs (S i) rest
  end.

(** [[k0][k1]...[k(n-1)]] *)
Definition labels (kind : string) (n : nat) : string :=
  String.concat "" ((fun i => "[" ++ kind ++ pretty i ++ "]") <$> seq 0 n).

(** The concatenation of [n] segments of [v] video and [a] audio streams. *)
Definition concat_stage (kind : string) (n : nat) (v a : nat) (out : string) : string :=
  labels kind n ++ "concat=n=" ++ pretty n ++ ":v=" ++ pretty v ++ ":a=" ++ pretty a ++
  "[" ++ out ++ "]".

(** The last stage: scale, pad, frame rate. *)
Definition scale_stage (ws hs fs : string) : string :=
  "[vout]scale=" ++ ws ++ ":" ++ hs ++ ":force_original_aspect_ratio=decrease,pad=" ++
  ws ++ ":" ++ hs ++ ":(ow-iw)/2:(oh-ih)/2,fps=" ++ fs ++ "[vfinal]".

(** Kinds of parts, told by how they start. *)
Definition is_video_trim (p : string) : Prop := String.prefix "[0:v]trim=" p = true.
Definition is_audio_trim (p : string) : Prop := String.prefix "[0:a]atrim=" p = true.
Definition reads_vout (p : string) : Prop := String.prefix "[vout]" p = true.
Definition reads_aout (p : string) : Prop := String.prefix "[aout]" p = true.

(** A dimension of a valid geometry: absent, or a positive number. *)
Definition valid_dimension (v : value) : Prop :=
  v = VUndefined \/ exists q : Qc, v = VNum (Finite q) /\ (Qc_of_Z 0 < q)%Qc.

(** The text of a dimension in the program: the number asked for, or the
    default when there is none. *)
Definition dimension_text (v : value) (dflt : Z) : string :=
  match v with
  | VNum n => number_to_string n
  | _ => pretty dflt
  end.

(** The transitions of the [status] field: one step along the order
    queued, downloading, preparing, rendering, completed, or a step to
    failed from downloading, preparing or rendering. *)
Inductive forward : string -> string -> Prop :=
| forward_download : forward "queued" "downloading"
| forward_prepare : forward "downloading" "preparing"
| forward_render : forward "preparing" "rendering"
| forward_complete : forward "rendering" "completed"
| forward_fail (s : string) :
    s ∈ ["downloading"; "preparing"; "rendering"] -> forward s "failed".

(** The position of a state in the forward order, the failure last. *)
Definition rank (s : string) : nat :=
  if String.eqb s "queued" then 0
  else if String.eqb s "downloading" then 1
  else if String.eqb s "preparing" then 2
  else if String.eqb s "rendering" then 3
  else if String.eqb s "completed" then 4
  else 5.

(** The status a write of the log sets. *)
Definition written_status (entry : string * Job) : value := field entry.2 "status".

(** A well-formed job record: a status, a progress and an error field (the
    error [null] or a text), and an output file that is a non-empty path
    when the status is completed and [null] otherwise. *)
Definition record_ok (job : Job) : Prop :=
  exists (st : string) (p : Z),
    job !! "status" = Some (VStr st) /\
    job !! "progress" = Some (num p) /\
    (job !! "error" = Some VNull \/ exists msg, job !! "error" = Some (VStr msg)) /\
    ((st ≠ "completed" /\ job !! "file" = Some VNull) \/
     (st = "completed" /\ exists path, job !! "file" = Some (VStr path) /\ path ≠ "")).

(** The record of a job that has not completed. *)
Definition open_record (job : Job) : Prop :=
  record_ok job /\ job !! "file" = Some VNull.

(** A patch that sets a status other than completed and leaves the file. *)
Definition patch_keeps_open (patch : Job) : Prop :=
  (exists st, patch !! "status" = Some (VStr st) /\ st ≠ "completed") /\
  (exists p, patch !! "progress" = Some (num p)) /\
  (patch !! "error" = None \/ exists msg, patch !! "error" = Some (VStr msg)) /\
  patch !! "file" = None.

(** The patch of a completed job. *)
Definition patch_completes (patch : Job) : Prop :=
  patch !! "status" = Some (VStr "completed") /\
  (exists p, patch !! "progress" = Some (num p)) /\
  patch !! "error" = None /\
  (exists path, patch !! "file" = Some (VStr path) /\ path ≠ "").

(** What is left of a [processJob id] call: writes to the record of [id]
    that keep it open, and at most one completing write, after which the
    call ends. *)
Inductive live (id : string) : Proc unit -> Prop :=
| live_write patch k :
    patch_keeps_open patch -> live id k -> live id (SetJob id patch k)
| live_complete patch :
    patch_completes patch -> live id (SetJob id patch (Ret tt))
| live_done : live id (Ret tt)
| live_await R (c : call R) k :
    (forall r, live id (k r)) -> live id (Await c k).

(** A task stopped at an await. *)
Definition paused_live (id : string) (p : Proc unit) : Prop :=
  match p with
  | Await c k => forall r, live id (k r)
  | _ => False
  end.

(** The jobs whose task is running or waiting in the queue. *)
Definition pending_ids (s : server) : list string :=
  (match running s with
   | Some (id, _) => [id]
   | None => []
   end ++ (queue s).*1)%list.

(** What holds in every reachable state: records are well formed, the
    running task is what is left of the [processJob] call of its job, the
    records of the pending jobs are open, and no job is pending twice. *)
Record invariant (s : server) : Prop := mkInvariant {
  inv_records : forall id job, jobs s !! id = Some job -> record_ok job;
  inv_running : forall id p, running s = Some (id, p) -> paused_live id p;
  inv_pending : forall id, id ∈ pending_ids s ->
                           exists job, jobs s !! id = Some job /\ open_record job;
  inv_distinct : NoDup (pending_ids s)
}.

(** The state in which an accepted request has its record and has joined
    the waiting tasks, before the queue starts anything. *)
Definition enqueued (jobId : string) (payload : value) (s : server) : server :=
  mkServer (<[jobId := queued_record]> (jobs s)) (queue s ++ [(jobId, payload)])%list
           (running s).

(** The answers with which a job goes through: the temporary directory is
    made, the source is fetched with a success status and written to
    [source.mp4] in that directory, the graph compiles, and the engine,
    given that file, the graph and [out.mp4] as output, ends well. *)
Definition goes_through (w : world) (cfg : value) (tmpDir : string) (url : value)
    (r : FetchResponse) (parts : list string) : Prop :=
  let srcPath := path_join tmpDir "source.mp4" in
  let outPath := path_join tmpDir "out.mp4" in
  w _ (Mkdtemp (path_join (os_tmpdir rt) "render-")) = inr tmpDir /\
  getProp cfg "sourceUrl" = inr url /\
  w _ (Fetch url) = inr r /\
  resp_ok r = true /\
  w _ (Mkdir (path_dirname srcPath)) = inr tt /\
  w _ (PipeToFile r srcPath) = inr tt /\
  buildFilterParts cfg = inr parts /\
  w _ (ExecFile (ffmpegPath rt) (ffArgs srcPath parts outPath) (10 * 1024 * 1024)%N) = inr tt.

(** The progress the program writes along with a status. *)
Definition progress_of (st : string) : Z :=
  if String.eqb st "downloading" then 5
  else if String.eqb st "preparing" then 12
  else if String.eqb st "rendering" then 20
  else if String.eqb st "completed" then 100
  else 0.

(** The record of a job in status [st]: the progress that goes with the
    status, an output file exactly when the job is completed and an error
    text exactly when it has failed. *)
Definition shaped (st : string) (job : Job) : Prop :=
  job !! "status" = Some (VStr st) /\
  job !! "progress" = Some (num (progress_of st)) /\
  (if String.eqb st "completed"
   then exists path, path ≠ "" /\ job !! "file" = Some (VStr path)
   else job !! "file" = Some VNull) /\
  (if String.eqb st "failed"
   then exists msg, job !! "error" = Some (VStr msg)
   else job !! "error" = Some VNull).

(** A patch that takes a record to status [st]. *)
Definition patch_sets (st : string) (patch : Job) : Prop :=
  patch !! "status" = Some (VStr st) /\
  patch !! "progress" = Some (num (progress_of st)) /\
  (if String.eqb st "completed"
   then exists path, path ≠ "" /\ patch !! "file" = Some (VStr path)
   else patch !! "file" = None) /\
  (if String.eqb st "failed"
   then exists msg, patch !! "error" = Some (VStr msg)
   else patch !! "error" = None).

(** What is left of a [processJob id] call whose job is in status [cur]:
    every write is a step forward, the call only waits for the world while
    the job is downloading or rendering, and it ends right after the write
    of a terminal status. *)
Inductive closing (id : string) : string -> Proc unit -> Prop :=
| closing_write cur st patch k :
    forward cur st -> st ∈ ["downloading"; "preparing"; "rendering"] ->
    patch_sets st patch -> closing id st k -> closing id cur (SetJob id patch k)
| closing_end cur st patch :
    forward cur st -> st ∈ ["completed"; "failed"] ->
    patch_sets st patch -> closing id cur (SetJob id patch (Ret tt))
| closing_await cur R (c : call R) k :
    cur ∈ ["downloading"; "rendering"] ->
    (forall r, closing id cur (k r)) -> closing id cur (Await c k).

Definition paused_closing (id cur : string) (p : Proc unit) : Prop :=
  match p with
  | Await c k => forall r, closing id cur (k r)
  | _ => False
  end.

(** The states of the server, by what each job is doing: the running job is
    downloading or rendering, a waiting job is queued, and every other job
    has ended. *)
Record coherent (s : server) : Prop := mkCoherent {
  coh_running : forall id p, running s = Some (id, p) ->
                             exists st job, jobs s !! id = Some job /\ shaped st job /\
                                            st ∈ ["downloading"; "rendering"] /\
                                            paused_closing id st p;
  coh_waiting : forall id, id ∈ (queue s).*1 ->
                           exists job, jobs s !! id = Some job /\ shaped "queued" job;
  coh_ended : forall id job, jobs s !! id = Some job -> id ∉ pending_ids s ->
                             exists st, shaped st job /\ st ∈ ["completed"; "failed"];
  coh_distinct : NoDup (pending_ids s)
}.

(** A record and what it has become: the status is where it was or further
    on, and a record of a job that has completed or failed is the same. *)
Definition moved (job job' : Job) : Prop :=
  exists st st' : string,
    job !! "status" = Some (VStr st) /\
    job' !! "status" = Some (VStr st') /\
    rtc forward st st' /\
    (st ∈ ["completed"; "failed"] -> job' = job).

(** * Properties *)

Ltac pick H :=
  repeat (apply elem_of_cons in H as [-> | H]); [.. | by apply elem_of_nil in H].

Ltac absurd_member H :=
  repeat (apply elem_of_cons in H as [H | H]; [discriminate H |]); by apply elem_of_nil in H.

Ltac member :=
  repeat first [ apply list_elem_of_here | apply list_elem_of_further ].

(** Case analysis on the answers of the world along a run of [processJob]. *)
Ltac job_cases w :=
  unfold processJob, processJob_try, processJob_catch, download, setJobP, await;
  cbn [bindP try_catch run calls];
  repeat
    (match goal with
     | |- context [w ?R ?c] =>
         let H := fresh "Hw" in destruct (w R c) as [? | ?] eqn:H
     | |- context [lift (getProp ?c ?k)] =>
         let H := fresh "Hurl" in destruct (getProp c k) as [? | ?] eqn:H
     | |- context [lift (buildFilterParts ?c)] =>
         let H := fresh "Hparts" in destruct (buildFilterParts c) as [? | ?] eqn:H
     | |- context [negb (resp_ok ?r)] =>
         let H := fresh "Hok" in destruct (resp_ok r) eqn:H
     end; cbn [bindP try_catch run calls lift negb fst snd]).


(** ** The job table *)

Lemma lookup_spread (prev patch : Job) (k : string) :
  spread prev patch !! k = match patch !! k with Some v => Some v | None => prev !! k end.
Proof.
  unfold spread. rewrite lookup_union.
  destruct (patch !! k), (prev !! k); reflexivity.
Qed.

Lemma setJob_lookup_eq (id : string) (patch : Job) (jobs : JobTable) :
  setJob id patch jobs !! id = Some (spread (default ∅ (jobs !! id)) patch).
Proof. unfold setJob. apply lookup_insert_eq. Qed.

Lemma setJob_lookup_ne (id id' : string) (patch : Job) (jobs : JobTable) :
  id ≠ id' -> setJob id patch jobs !! id' = jobs !! id'.
Proof. intros Hne. unfold setJob. by apply lookup_insert_ne. Qed.

(** C9. [setJob] is a patch-style merge: in the record of [id] every field
    named in the patch takes the value of the patch and every other field
    keeps the value it had (a job without a record counts as having an empty
    one); the records of all other jobs are left as they were. *)
Theorem setJob_patch_merge (id : string) (patch : Job) (jobs : JobTable) :
  (exists job' : Job,
      setJob id patch jobs !! id = Some job' /\
      forall k : string,
        job' !! k = match patch !! k with
                    | Some v => Some v
                    | None => default ∅ (jobs !! id) !! k
                    end) /\
  delete id (setJob id patch jobs) = delete id jobs.
Proof.
  split.
  - exists (spread (default ∅ (jobs !! id)) patch). split.
    + apply setJob_lookup_eq.
    + intros k. apply lookup_spread.
  - unfold setJob. apply delete_insert_eq.
Qed.

(** ** Submission *)

(** C6. A request whose [sourceUrl] is absent, or whose [clips] is not a
    list, or whose [clips] is the empty list, is answered at once with
    status 400 and an error document that carries no job identifier; the
    job table, the queue and the running task are left untouched. *)
Theorem postRender_rejects_invalid (jobId : string) (payload : value) (s : server) :
  getPropOpt payload "sourceUrl" = VUndefined \/
  Array_isArray (getPropOpt payload "clips") = false \/
  getPropOpt payload "clips" = VArr [] ->
  let (res, s') := postRender jobId payload s in
  code res = 400 /\
  content res = JsonBody [("error", VStr "Invalid payload. Need sourceUrl and non-empty clips[]")] /\
  (forall fields, content res = JsonBody fields -> lookup_own fields "jobId" = None) /\
  s' = s.
Proof.
  intros H. unfold postRender.
  assert (Hguard : negb (truthy (getPropOpt payload "sourceUrl"))
                   || negb (Array_isArray (getPropOpt payload "clips"))
                   || is_zero (getPropOpt (getPropOpt payload "clips") "length") = true).
  { destruct H as [H | [H | H]]; rewrite H.
    - reflexivity.
    - apply orb_true_iff. left. apply orb_true_iff. right. reflexivity.
    - apply orb_true_iff. right. reflexivity. }
  rewrite Hguard. repeat split.
  intros fields Hf. inversion Hf. reflexivity.
Qed.

(** ** The filter graph *)

Lemma requireNumber_ok (n : number) (name : string) :
  n ≠ NaN -> requireNumber (VNum n) name = inr tt.
Proof. intros Hn. destruct n; [congruence | reflexivity ..]. Qed.

Lemma requireNumber_refuses (v : value) (name : string) :
  not_a_number v -> requireNumber v name = inl (Error (name ++ " must be a number")).
Proof.
  intros [Hty | ->]; [| reflexivity].
  destruct v; try reflexivity. exfalso. apply Hty. reflexivity.
Qed.

Lemma clipBody_valid (c : value) (se : number * number) (i : nat) (acc : list string) :
  valid_clip c se ->
  clipBody c i acc = (inr tt, (acc ++ [trim_video i se; trim_audio i se])%list).
Proof.
  intros (Hs & He & Hns & Hne & Hle). unfold clipBody, bindB, liftB.
  rewrite Hs, He, !requireNumber_ok by assumption. cbn [js_le].
  rewrite Hle. reflexivity.
Qed.

(** A refused clip throws and leaves the array as it found it. *)
Lemma clipBody_refused (c : value) (i : nat) (acc : list string) :
  refused_clip c -> exists e, clipBody c i acc = (inl e, acc).
Proof.
  unfold refused_clip, clipBody, bindB, liftB. intros H.
  destruct (getProp c "start") as [e1 | s]; [by eexists |].
  destruct (getProp c "end") as [e2 | e] eqn:He.
  - destruct (requireNumber s "clip.start"); by eexists.
  - destruct H as [H | [H | H]].
    + rewrite (requireNumber_refuses _ _ H). by eexists.
    + destruct (requireNumber s "clip.start"); [by eexists |].
      rewrite (requireNumber_refuses _ _ H). by eexists.
    + destruct (requireNumber s "clip.start"); [by eexists |].
      destruct (requireNumber e "clip.end"); [by eexists |].
      rewrite H. by eexists.
Qed.

Lemma forEach_valid (clips : list value) (times : list (number * number)) :
  Forall2 valid_clip clips times ->
  forall (i : nat) (acc : list string),
    forEach clipBody clips i acc = (inr tt, (acc ++ trim_pairs i times)%list).
Proof.
  induction 1 as [| c se clips times Hc _ IH]; intros i acc.
  - cbn. by rewrite app_nil_r.
  - cbn [forEach trim_pairs]. unfold bindB.
    rewrite (clipBody_valid _ _ _ _ Hc), IH. by rewrite <- app_assoc.
Qed.

Lemma forEach_refused (clips : list value) :
  Exists refused_clip clips ->
  forall (i : nat) (acc : list string),
    exists e acc', forEach clipBody clips i acc = (inl e, acc').
Proof.
  induction 1 as [c clips Hc | c clips _ IH]; intros i acc; cbn [forEach]; unfold bindB.
  - destruct (clipBody_refused c i acc Hc) as [e ->]. by eexists _, _.
  - destruct (clipBody c i acc) as [[e | []] acc']; [by eexists _, _ |]. apply IH.
Qed.

Lemma buildFilterParts_throws (cfg : value) (clips : list value) :
  getProp cfg "clips" = inr (VArr clips) ->
  Exists refused_clip clips ->
  exists e, buildFilterParts cfg = inl e.
Proof.
  intros Hclips Hex. unfold buildFilterParts, filterGraph, bindB, liftB.
  rewrite Hclips.
  destruct (forEach_refused clips Hex 0 []) as (e & acc' & ->). by eexists.
Qed.

Lemma string_app_assoc (a b c : string) : (a ++ b) ++ c = a ++ b ++ c.
Proof.
  induction a as [| x a IH]; [reflexivity |].
  change (String x ((a ++ b) ++ c) = String x (a ++ b ++ c)). by rewrite IH.
Qed.

Lemma getProp_readable (cfg : value) (k : string) (v : value) :
  getProp cfg k = inr v -> forall k', getProp cfg k' = inr (getPropOpt cfg k').
Proof. destruct cfg; intros H k'; try discriminate H; reflexivity. Qed.

(** What [buildFilterParts] returns on valid clips, when the three
    dimensions convert to text. *)
Lemma buildFilterParts_valid (cfg : value) (clips : list value)
    (times : list (number * number)) (ws hs fs : string) :
  getProp cfg "clips" = inr (VArr clips) ->
  Forall2 valid_clip clips times ->
  ToString (js_or (getPropOpt cfg "width") (num 1920)) = inr ws ->
  ToString (js_or (getPropOpt cfg "height") (num 1080)) = inr hs ->
  ToString (js_or (getPropOpt cfg "fps") (num 30)) = inr fs ->
  buildFilterParts cfg =
    inr (trim_pairs 0 times ++
         [ concat_stage "v" (length clips) 1 0 "vout";
           concat_stage "a" (length clips) 0 1 "aout";
           scale_stage ws hs fs ])%list.
Proof.
  intros Hclips Hvalid Hw Hh Hf. unfold buildFilterParts, filterGraph, bindB, liftB, pushB.
  rewrite Hclips, (forEach_valid _ _ Hvalid), !(getProp_readable _ _ _ Hclips).
  rewrite Hw, Hh, Hf. unfold push. f_equal.
  rewrite app_nil_l, <- !app_assoc. f_equal.
  rewrite !imap_seq_0. unfold scale_stage. rewrite !string_app_assoc.
  reflexivity.
Qed.

Lemma trim_pairs_length (times : list (number * number)) (i : nat) :
  length (trim_pairs i times) = 2 * length times.
Proof.
  revert i. induction times as [| se times IH]; intros i; [reflexivity |].
  cbn [trim_pairs length]. rewrite IH. lia.
Qed.

Lemma trim_pairs_lookup (times : list (number * number)) (i0 i : nat) (se : number * number) :
  times !! i = Some se ->
  trim_pairs i0 times !! (2 * i) = Some (trim_video (i0 + i) se) /\
  trim_pairs i0 times !! (2 * i + 1) = Some (trim_audio (i0 + i) se).
Proof.
  revert i0 i. induction times as [| se' times IH]; intros i0 i Hi; [done |].
  destruct i as [| i].
  - injection Hi as ->. rewrite Nat.add_0_r. done.
  - replace (2 * S i) with (S (S (2 * i))) by lia.
    replace (i0 + S i) with (S i0 + i) by lia.
    apply (IH (S i0) i Hi).
Qed.

Lemma concat_stage_head (kind : string) (n v a : nat) (out : string) :
  exists tail : string,
    concat_stage kind n v a out = "concat=" ++ tail \/
    concat_stage kind n v a out = "[" ++ kind ++ "0]" ++ tail.
Proof.
  unfold concat_stage, labels. destruct n as [| n].
  - eexists. left. reflexivity.
  - cbn [seq fmap list_fmap]. destruct (_ <$> seq 1 n) as [| l ls] eqn:E.
    + eexists. right. cbn [String.concat].
      change (pretty 0) with "0". rewrite !string_app_assoc. reflexivity.
    + eexists. right. cbn [String.concat].
      change (pretty 0) with "0". rewrite !string_app_assoc. reflexivity.
Qed.

Lemma trim_pairs_video_count (times : list (number * number)) (i : nat) :
  length (filter is_video_trim (trim_pairs i times)) = length times.
Proof.
  revert i. induction times as [| se times IH]; intros i; [reflexivity |].
  cbn [trim_pairs length].
  rewrite filter_cons_True by reflexivity.
  rewrite filter_cons_False by (unfold is_video_trim; by cbv).
  cbn [length]. by rewrite IH.
Qed.

Lemma trim_pairs_audio_count (times : list (number * number)) (i : nat) :
  length (filter is_audio_trim (trim_pairs i times)) = length times.
Proof.
  revert i. induction times as [| se times IH]; intros i; [reflexivity |].
  cbn [trim_pairs length].
  rewrite filter_cons_False by (unfold is_audio_trim; by cbv).
  rewrite filter_cons_True by reflexivity.
  cbn [length]. by rewrite IH.
Qed.

Lemma trim_pairs_no_reader (times : list (number * number)) (i : nat) :
  filter reads_vout (trim_pairs i times) = [] /\
  filter reads_aout (trim_pairs i times) = [].
Proof.
  revert i. induction times as [| se times IH]; intros i; [done |].
  cbn [trim_pairs]. destruct (IH (S i)) as [IHv IHa]. split.
  - rewrite !filter_cons_False by (unfold reads_vout; by cbv). exact IHv.
  - rewrite !filter_cons_False by (unfold reads_aout; by cbv). exact IHa.
Qed.

(** A concatenation stage of the program starts with its input labels or,
    for no clip at all, with the filter name: it is neither a trim nor a
    reader of [vout] or [aout]. *)
Lemma concat_stage_kind (kind : string) (n v a : nat) (out : string) :
  kind = "v" \/ kind = "a" ->
  let p := concat_stage kind n v a out in
  ~ is_video_trim p /\ ~ is_audio_trim p /\ ~ reads_vout p /\ ~ reads_aout p.
Proof.
  intros Hk p. subst p.
  destruct (concat_stage_head kind n v a out) as [tail [-> | ->]];
    destruct Hk as [-> | ->];
    unfold is_video_trim, is_audio_trim, reads_vout, reads_aout;
    repeat split; by cbv.
Qed.

(** C1. For a non-empty list of [n] valid clips the filter program is made
    of the [n] trim pairs, in clip order, followed by the video
    concatenation into [vout], the audio concatenation into [aout] and one
    final stage.  Clip [i] gives the video trim at position [2i] and the
    audio trim at position [2i+1], each followed by a reset of the
    timestamps and labelled [v{i}] and [a{i}]; the program has exactly [n]
    video trims and [n] audio trims; the two concatenations are separate
    stages, one with [v=1:a=0] over the labels [v0..v{n-1}] and one with
    [v=0:a=1] over [a0..a{n-1}], each with segment count [n]. *)
Theorem filter_graph_trims_and_concats (cfg : value) (clips : list value)
    (times : list (number * number)) (ws hs fs : string) :
  getProp cfg "clips" = inr (VArr clips) ->
  clips ≠ [] ->
  Forall2 valid_clip clips times ->
  ToString (js_or (getPropOpt cfg "width") (num 1920)) = inr ws ->
  ToString (js_or (getPropOpt cfg "height") (num 1080)) = inr hs ->
  ToString (js_or (getPropOpt cfg "fps") (num 30)) = inr fs ->
  let n := length clips in
  exists (parts : list string) (final : string),
    buildFilterParts cfg = inr parts /\
    parts = (trim_pairs 0 times ++
             [ concat_stage "v" n 1 0 "vout"; concat_stage "a" n 0 1 "aout"; final ])%list /\
    length parts = 2 * n + 3 /\
    (forall (i : nat) (se : number * number),
        times !! i = Some se ->
        parts !! (2 * i) = Some (trim_video i se) /\
        parts !! (2 * i + 1) = Some (trim_audio i se)) /\
    parts !! (2 * n) = Some (labels "v" n ++ "concat=n=" ++ pretty n ++ ":v=1:a=0[vout]") /\
    parts !! (2 * n + 1) = Some (labels "a" n ++ "concat=n=" ++ pretty n ++ ":v=0:a=1[aout]") /\
    length (filter is_video_trim parts) = n /\
    length (filter is_audio_trim parts) = n.
Proof.
  intros Hclips _ Hvalid Hw Hh Hf n.
  pose proof (Forall2_length _ _ _ Hvalid) as Hlen. fold n in Hlen.
  pose proof (trim_pairs_length times 0) as Hpairs. rewrite <- Hlen in Hpairs.
  destruct (concat_stage_kind "v" n 1 0 "vout" (or_introl eq_refl)) as (Hv1 & Hv2 & _).
  destruct (concat_stage_kind "a" n 0 1 "aout" (or_intror eq_refl)) as (Ha1 & Ha2 & _).
  exists (trim_pairs 0 times ++
          [ concat_stage "v" n 1 0 "vout"; concat_stage "a" n 0 1 "aout";
            scale_stage ws hs fs ])%list, (scale_stage ws hs fs).
  split; [by apply buildFilterParts_valid |].
  split; [reflexivity |].
  split; [rewrite length_app, Hpairs; cbn; lia |].
  split.
  { intros i se Hi. destruct (trim_pairs_lookup times 0 i se Hi) as [H1 H2].
    split; (rewrite lookup_app_l; [assumption | by eapply lookup_lt_Some]). }
  split.
  { rewrite lookup_app_r by lia. by rewrite Hpairs, Nat.sub_diag. }
  split.
  { rewrite lookup_app_r by lia.
    by replace (2 * n + 1 - length (trim_pairs 0 times)) with 1 by lia. }
  rewrite !filter_app, !length_app, trim_pairs_video_count, trim_pairs_audio_count.
  rewrite <- Hlen. split.
  - rewrite !filter_cons_False; [cbn; lia | by cbv | assumption | assumption].
  - rewrite !filter_cons_False; [cbn; lia | by cbv | assumption | assumption].
Qed.

Lemma ToString_dimension (v : value) (dflt : Z) :
  valid_dimension v ->
  (Z.abs dflt < 2 ^ 53)%Z ->
  ToString (js_or v (num dflt)) = inr (dimension_text v dflt).
Proof.
  intros [-> | (q & -> & Hq)] Hd.
  - cbn. rewrite (bool_decide_eq_true_2 (Z.abs dflt < 2 ^ 53)%Z) by assumption.
    reflexivity.
  - unfold js_or. cbn [truthy].
    rewrite bool_decide_eq_false_2; [reflexivity |].
    intros ->. apply (Qclt_not_le _ _ Hq). apply Qcle_refl.
Qed.

(** C5. For valid clips and a valid geometry the program has exactly one
    stage that reads [vout], and it is the last one: scale to [width] by
    [height] with [force_original_aspect_ratio=decrease], pad to [width] by
    [height] at offsets [(ow-iw)/2] and [(oh-ih)/2], then [fps], giving
    [vfinal].  No stage reads [aout].  A dimension that is absent from the
    request is 1920 for the width, 1080 for the height and 30 for the frame
    rate. *)
Theorem scale_pad_stage (cfg : value) (clips : list value) (times : list (number * number)) :
  getProp cfg "clips" = inr (VArr clips) ->
  Forall2 valid_clip clips times ->
  valid_dimension (getPropOpt cfg "width") ->
  valid_dimension (getPropOpt cfg "height") ->
  valid_dimension (getPropOpt cfg "fps") ->
  let ws := dimension_text (getPropOpt cfg "width") 1920 in
  let hs := dimension_text (getPropOpt cfg "height") 1080 in
  let fs := dimension_text (getPropOpt cfg "fps") 30 in
  let stage :=
    "[vout]scale=" ++ ws ++ ":" ++ hs ++ ":force_original_aspect_ratio=decrease,pad=" ++
    ws ++ ":" ++ hs ++ ":(ow-iw)/2:(oh-ih)/2,fps=" ++ fs ++ "[vfinal]" in
  exists parts : list string,
    buildFilterParts cfg = inr parts /\
    last parts = Some stage /\
    filter reads_vout parts = [stage] /\
    filter reads_aout parts = [] /\
    (getPropOpt cfg "width" = VUndefined -> ws = "1920") /\
    (getPropOpt cfg "height" = VUndefined -> hs = "1080") /\
    (getPropOpt cfg "fps" = VUndefined -> fs = "30").
Proof.
  intros Hclips Hvalid Hw Hh Hf ws hs fs stage.
  destruct (concat_stage_kind "v" (length clips) 1 0 "vout" (or_introl eq_refl))
    as (_ & _ & Hv1 & Hv2).
  destruct (concat_stage_kind "a" (length clips) 0 1 "aout" (or_intror eq_refl))
    as (_ & _ & Ha1 & Ha2).
  destruct (trim_pairs_no_reader times 0) as [Hnv Hna].
  eexists. split.
  { apply (buildFilterParts_valid cfg clips times ws hs fs); try assumption;
      apply ToString_dimension; try assumption; by cbv. }
  fold (scale_stage ws hs fs) in stage. subst stage.
  split; [by rewrite last_app |].
  split.
  { rewrite filter_app, Hnv.
    rewrite !filter_cons_False by assumption.
    by rewrite filter_cons_True by reflexivity. }
  split.
  { rewrite filter_app, Hna.
    rewrite !filter_cons_False; [reflexivity | by cbv | assumption | assumption]. }
  subst ws hs fs. repeat split; intros ->; reflexivity.
Qed.

Lemma lookup_own_omit_eq (k : string) (props : list (string * value)) :
  lookup_own (omit k props) k = None.
Proof.
  induction props as [| [k' v] props IH]; [reflexivity |].
  unfold omit. rewrite filter_cons. cbn [fst].
  destruct (decide (k' ≠ k)) as [Hne | Heq]; [| exact IH].
  cbn [lookup_own]. by rewrite (proj2 (String.eqb_neq _ _) Hne).
Qed.

Lemma lookup_own_omit_ne (k k' : string) (props : list (string * value)) :
  k' ≠ k -> lookup_own (omit k props) k' = lookup_own props k'.
Proof.
  intros Hne. induction props as [| [k0 v] props IH]; [reflexivity |].
  unfold omit. rewrite filter_cons. cbn [fst lookup_own].
  destruct (decide (k0 ≠ k)) as [Hk | Hk].
  - cbn [lookup_own]. destruct (String.eqb k0 k'); [reflexivity | exact IH].
  - apply dec_stable in Hk. subst k0.
    rewrite (proj2 (String.eqb_neq _ _)) by congruence. exact IH.
Qed.

(** C10. A falsy [width], [height] or [fps] (0, NaN, [null], [false], the
    empty string) compiles exactly as if the field were left out of the
    request, and the default takes its place: on valid clips, and with the
    two other dimensions valid, the last stage scales and pads to 1920 when
    it is the width that is falsy, to 1080 when it is the height, and sets
    the frame rate 30 when it is the frame rate.  So a caller cannot ask for
    a zero value. *)
Theorem falsy_dimension_is_default (k : string) (v : value) (props : list (string * value))
    (clips : list value) (times : list (number * number)) :
  k ∈ ["width"; "height"; "fps"] ->
  truthy v = false ->
  let cfg := VObj ((k, v) :: props) in
  buildFilterParts cfg = buildFilterParts (VObj (omit k props)) /\
  (getProp cfg "clips" = inr (VArr clips) ->
   Forall2 valid_clip clips times ->
   (forall k', k' ∈ ["width"; "height"; "fps"] -> k' ≠ k ->
               valid_dimension (getPropOpt cfg k')) ->
   exists (parts : list string) (ws hs fs : string),
     buildFilterParts cfg = inr parts /\
     last parts =
       Some ("[vout]scale=" ++ ws ++ ":" ++ hs ++
             ":force_original_aspect_ratio=decrease,pad=" ++
             ws ++ ":" ++ hs ++ ":(ow-iw)/2:(oh-ih)/2,fps=" ++ fs ++ "[vfinal]") /\
     ws = (if String.eqb k "width" then "1920"
           else dimension_text (getPropOpt cfg "width") 1920) /\
     hs = (if String.eqb k "height" then "1080"
           else dimension_text (getPropOpt cfg "height") 1080) /\
     fs = (if String.eqb k "fps" then "30"
           else dimension_text (getPropOpt cfg "fps") 30)).
Proof.
  intros Hk Hv cfg. subst cfg. split.
  - assert (Hor : forall d, js_or v d = js_or VUndefined d).
    { intros d. unfold js_or. by rewrite Hv. }
    unfold buildFilterParts, filterGraph, bindB, liftB. cbn [getProp lookup_own].
    repeat (apply elem_of_cons in Hk as [-> | Hk]); [| | | by apply elem_of_nil in Hk].
    all: cbn [String.eqb Ascii.eqb Bool.eqb];
      rewrite ?lookup_own_omit_eq, ?lookup_own_omit_ne by discriminate;
      cbn [ret default from_option]; rewrite ?Hor; reflexivity.
  - intros Hclips Hvalid Hdims.
    assert (Hdflt : forall d : Z, js_or v (num d) = num d).
    { intros d. unfold js_or. by rewrite Hv. }
    assert (Hother : forall k' d, k' ∈ ["width"; "height"; "fps"] -> k' ≠ k ->
               (Z.abs d < 2 ^ 53)%Z ->
               ToString (js_or (getPropOpt (VObj ((k, v) :: props)) k') (num d)) =
                 inr (dimension_text (getPropOpt (VObj ((k, v) :: props)) k') d)).
    { intros k' d Hk' Hne Hd. apply ToString_dimension; [by apply Hdims | exact Hd]. }
    repeat (apply elem_of_cons in Hk as [-> | Hk]); [| | | by apply elem_of_nil in Hk].
    all: eexists _, _, _, _.
    all: split;
      [ apply (buildFilterParts_valid _ clips times); try assumption;
        first [ cbn [getPropOpt getProp lookup_own String.eqb Ascii.eqb Bool.eqb ret default
                     from_option]; rewrite Hdflt; reflexivity
              | apply Hother; [member | discriminate | by cbv] ]
      | split; [by rewrite last_app | by repeat split] ].
Qed.

(** ** The life cycle of a job *)

Lemma run_try_catch {A} (w : world) (p : Proc A) (h : exn -> Proc A) (jobs : JobTable) :
  run w (try_catch p h) jobs =
    match run w p jobs with
    | (inl e, jobs', log) =>
        let '(r, jobs'', log') := run w (h e) jobs' in (r, jobs'', (log ++ log')%list)
    | (inr a, jobs', log) => (inr a, jobs', log)
    end.
Proof.
  revert jobs. induction p as [a | e | id patch k IH | R c k IH]; intros jobs.
  - reflexivity.
  - cbn [try_catch run]. by destruct (run w (h e) jobs) as [[r j] l].
  - cbn [try_catch run]. rewrite IH.
    destruct (run w k (setJob id patch jobs)) as [[[e | a] j] l]; [| reflexivity].
    by destruct (run w (h e) j) as [[r j'] l'].
  - cbn [try_catch run]. apply IH.
Qed.

Lemma processJob_writes (w : world) (id : string) (cfg : value) (jobs : JobTable) :
  let log := (run w (processJob id cfg) jobs).2 in
  Forall (fun entry => entry.1 = id) log /\
  written_status <$> log ∈
    [ [VStr "downloading"; VStr "failed"];
      [VStr "downloading"; VStr "preparing"; VStr "failed"];
      [VStr "downloading"; VStr "preparing"; VStr "rendering"; VStr "failed"];
      [VStr "downloading"; VStr "preparing"; VStr "rendering"; VStr "completed"] ].
Proof.
  unfold processJob, processJob_try, processJob_catch, download, setJobP, await.
  cbn [bindP try_catch run].
  repeat
    (match goal with
     | |- context [w ?R ?c] => destruct (w R c) as [? | ?]
     | |- context [lift (getProp ?c ?k)] => destruct (getProp c k) as [? | ?]
     | |- context [lift (buildFilterParts ?c)] => destruct (buildFilterParts c) as [? | ?]
     | |- context [negb (resp_ok ?r)] => destruct (resp_ok r)
     end; cbn [bindP try_catch run lift negb snd]).
  all: split; [repeat constructor |].
  all: first [ apply (list_elem_of_lookup_2 _ 0); reflexivity
             | apply (list_elem_of_lookup_2 _ 1); reflexivity
             | apply (list_elem_of_lookup_2 _ 2); reflexivity
             | apply (list_elem_of_lookup_2 _ 3); reflexivity ].
Qed.

Lemma refused_job_writes (w : world) (id : string) (cfg : value) (jobs : JobTable) (e : exn) :
  buildFilterParts cfg = inl e ->
  written_status <$> (run w (processJob id cfg) jobs).2 ∈
    [ [VStr "downloading"; VStr "failed"];
      [VStr "downloading"; VStr "preparing"; VStr "failed"] ].
Proof.
  intros Hthrow.
  unfold processJob, processJob_try, processJob_catch, download, setJobP, await.
  rewrite Hthrow. cbn [bindP try_catch run].
  repeat
    (match goal with
     | |- context [w ?R ?c] => destruct (w R c) as [? | ?]
     | |- context [lift (getProp ?c ?k)] => destruct (getProp c k) as [? | ?]
     | |- context [negb (resp_ok ?r)] => destruct (resp_ok r)
     end; cbn [bindP try_catch run lift negb snd]).
  all: first [ apply (list_elem_of_lookup_2 _ 0); reflexivity
             | apply (list_elem_of_lookup_2 _ 1); reflexivity ].
Qed.

Lemma refused_job_calls (w : world) (id : string) (cfg : value) (e : exn) :
  buildFilterParts cfg = inl e ->
  omap engine_call (calls w (processJob id cfg)) = [].
Proof.
  intros Hthrow.
  unfold processJob, processJob_try, processJob_catch, download, setJobP, await.
  rewrite Hthrow. cbn [bindP try_catch calls].
  repeat
    (match goal with
     | |- context [w ?R ?c] => destruct (w R c) as [? | ?]
     | |- context [lift (getProp ?c ?k)] => destruct (getProp c k) as [? | ?]
     | |- context [negb (resp_ok ?r)] => destruct (resp_ok r)
     end; cbn [bindP try_catch calls lift negb]).
  all: reflexivity.
Qed.

(** C2 (as amended). If some clip of the list, at whatever position, has a
    bound that is not a number or is NaN, or has [end <= start], the
    compilation of the filter graph throws: it returns no list of parts,
    whole or partial (the trims built for the clips before that one are
    dropped).  In no run of the job is the render engine then started: the
    job makes no call to it, and never gets to the rendering status. *)
Theorem refused_clip_fails_compilation (cfg : value) (clips : list value) :
  getProp cfg "clips" = inr (VArr clips) ->
  Exists refused_clip clips ->
  (exists e, buildFilterParts cfg = inl e) /\
  forall (w : world) (id : string) (jobs : JobTable),
    omap engine_call (calls w (processJob id cfg)) = [] /\
    VStr "rendering" ∉ written_status <$> (run w (processJob id cfg) jobs).2.
Proof.
  intros Hclips Hex.
  destruct (buildFilterParts_throws cfg clips Hclips Hex) as [e He].
  split; [by exists e |].
  intros w id jobs. split; [by apply (refused_job_calls w id cfg e) |]. intros Hin.
  pose proof (refused_job_writes w id cfg jobs e He) as H.
  repeat (apply elem_of_cons in H as [H | H]); [.. | by apply elem_of_nil in H].
  all: rewrite H in Hin.
  all: repeat (apply elem_of_cons in Hin as [Hin | Hin]; [discriminate Hin |]).
  all: by apply elem_of_nil in Hin.
Qed.

Lemma written_status_lookup (entry : string * Job) (s : string) :
  written_status entry = VStr s -> entry.2 !! "status" = Some (VStr s).
Proof.
  unfold written_status, field. destruct (entry.2 !! "status"); cbn; congruence.
Qed.

Lemma status_of_setJob (id : string) (patch : Job) (jobs : JobTable) (s : string) :
  written_status (id, patch) = VStr s -> status_of id (setJob id patch jobs) = VStr s.
Proof.
  intros H. apply written_status_lookup in H. cbn [snd] in H.
  unfold status_of, field. rewrite setJob_lookup_eq, lookup_spread, H. reflexivity.
Qed.




(** X23. When the promises it awaits settle, [processJob] never throws:
    whatever is thrown inside its [try] block (a rejected fetch, a refused
    clip, a failing render engine) is caught there, and the record of the
    job then has status failed, the text of the error as its [error] field
    (a string, not [null]) and progress 0; the records of the other jobs are
    as the [try] block left them. *)
Theorem processJob_failure_recorded (w : world) (id : string) (cfg : value) (jobs : JobTable) :
  (run w (processJob id cfg) jobs).1.1 = inr tt /\
  forall (e : exn) (jobs' : JobTable) (log : list (string * Job)),
    run w (processJob_try id cfg) jobs = (inl e, jobs', log) ->
    exists (final : JobTable) (job : Job),
      run w (processJob id cfg) jobs =
        (inr tt, final,
         (log ++ [(id, {[ "status" := VStr "failed"; "progress" := num 0;
                          "error" := VStr (String_of_exn e) ]})])%list) /\
      final !! id = Some job /\
      job !! "status" = Some (VStr "failed") /\
      job !! "error" = Some (VStr (String_of_exn e)) /\
      field job "error" ≠ VNull /\
      job !! "progress" = Some (num 0) /\
      delete id final = delete id jobs'.
Proof.
  unfold processJob. rewrite run_try_catch.
  destruct (run w (processJob_try id cfg) jobs) as [[[e | []] jobs'] log] eqn:Hrun.
  - cbn [processJob_catch setJobP run]. split; [reflexivity |].
    intros e' jobs'' log' [= <- <- <-].
    eexists _, _. split; [reflexivity |]. split; [apply setJob_lookup_eq |].
    rewrite !lookup_spread. unfold field. rewrite lookup_spread.
    repeat split; try reflexivity; try discriminate.
    unfold setJob. apply delete_insert_eq.
  - split; [reflexivity |]. intros e jobs'' log' [=].
Qed.

(** ** Reachable states of the server *)

Lemma queued_record_open : open_record queued_record.
Proof.
  split; [| reflexivity].
  exists "queued", 0%Z. repeat split; [by left |].
  left. split; [discriminate | reflexivity].
Qed.

Lemma spread_keeps_open (job patch : Job) :
  open_record job -> patch_keeps_open patch -> open_record (spread job patch).
Proof.
  intros [(st & p & Hst & Hp & He & Hf) Hfile]
         ((st' & Hst' & Hne) & (p' & Hp') & He' & Hf').
  split; [| by rewrite lookup_spread, Hf'].
  exists st', p'. rewrite !lookup_spread, Hst', Hp', Hf'.
  repeat split.
  - destruct He' as [-> | [msg ->]]; [exact He | right; by eexists].
  - left. by split.
Qed.

Lemma spread_completes (job patch : Job) :
  open_record job -> patch_completes patch -> record_ok (spread job patch).
Proof.
  intros [(st & p & Hst & Hp & He & Hf) Hfile] (Hst' & (p' & Hp') & He' & (path & Hf' & Hne)).
  exists "completed", p'. rewrite !lookup_spread, Hst', Hp', He', Hf'.
  repeat split; [exact He |].
  right. split; [reflexivity | by exists path].
Qed.

(** Running a live task up to its next await only touches the record of its
    job, keeps that record well formed, and ends either at the end of the
    task or at an await with the record still open; it never throws. *)
Lemma run_sync_live (id : string) (p : Proc unit) :
  live id p ->
  forall (jobs0 : JobTable) (job : Job),
    jobs0 !! id = Some job ->
    open_record job ->
    exists (jobs1 : JobTable) (p' : Proc unit) (job' : Job),
      run_sync p jobs0 = (jobs1, p') /\
      (forall id', id' ≠ id -> jobs1 !! id' = jobs0 !! id') /\
      jobs1 !! id = Some job' /\
      record_ok job' /\
      (p' = Ret tt \/ (paused_live id p' /\ open_record job')).
Proof.
  induction 1 as [patch k Hpatch _ IH | patch Hpatch | | R c k Hk _];
    intros jobs0 job Hjob Hopen.
  - cbn [run_sync].
    destruct (IH (setJob id patch jobs0) (spread job patch))
      as (jobs1 & p' & job' & Hrun & Hother & Hid & Hok & Hp').
    { by rewrite setJob_lookup_eq, Hjob. }
    { by apply spread_keeps_open. }
    exists jobs1, p', job'. split; [exact Hrun |]. split; [| done].
    intros id' Hne. rewrite (Hother id' Hne). by apply setJob_lookup_ne.
  - cbn [run_sync]. eexists _, _, _. split; [reflexivity |].
    split; [intros id' Hne; by apply setJob_lookup_ne |].
    split; [by rewrite setJob_lookup_eq, Hjob |].
    split; [by apply spread_completes | by left].
  - exists jobs0, (Ret tt), job. repeat split; try done. apply Hopen. by left.
  - exists jobs0, (Await c k), job. repeat split; try done. apply Hopen. by right.
Qed.

Lemma path_join_nonempty (dir name : string) : path_join dir name ≠ "".
Proof. unfold path_join. destruct dir; discriminate. Qed.

Lemma processJob_live (id : string) (cfg : value) : live id (processJob id cfg).
Proof.
  assert (Hfail : forall e, live id (processJob_catch id e)).
  { intros e. apply live_write; [| apply live_done].
    repeat split; [by exists "failed" | by exists 0%Z | right; by eexists]. }
  unfold processJob, processJob_try, download, setJobP, await.
  cbn [bindP try_catch].
  apply live_write; [repeat split; [by eexists | by eexists | by left] |].
  apply live_await. intros [e | tmpDir]; cbn [bindP try_catch]; [apply Hfail |].
  destruct (getProp cfg "sourceUrl") as [e | url]; cbn [lift bindP try_catch]; [apply Hfail |].
  apply live_await. intros [e | r]; cbn [bindP try_catch]; [apply Hfail |].
  destruct (resp_ok r); cbn [negb bindP try_catch]; [| apply Hfail].
  apply live_await. intros [e | []]; cbn [bindP try_catch]; [apply Hfail |].
  apply live_await. intros [e | []]; cbn [bindP try_catch]; [apply Hfail |].
  apply live_write; [repeat split; [by eexists | by eexists | by left] |].
  destruct (buildFilterParts cfg) as [e | parts]; cbn [lift bindP try_catch]; [apply Hfail |].
  apply live_write; [repeat split; [by eexists | by eexists | by left] |].
  apply live_await. intros [e | []]; cbn [bindP try_catch]; [apply Hfail |].
  apply live_complete.
  repeat split; [by eexists |].
  eexists. split; [reflexivity | apply path_join_nonempty].
Qed.

Lemma run_task_invariant (id : string) (p : Proc unit) (jobs0 : JobTable)
    (q : list (string * value)) :
  live id p ->
  (forall id' job, jobs0 !! id' = Some job -> record_ok job) ->
  (forall id', id' ∈ id :: q.*1 -> exists job, jobs0 !! id' = Some job /\ open_record job) ->
  NoDup (id :: q.*1) ->
  invariant (settle id (run_sync p jobs0) q).
Proof.
  intros Hlive Hrec Hpend Hnd.
  destruct (Hpend id) as (job & Hjob & Hopen); [apply list_elem_of_here |].
  destruct (run_sync_live id p Hlive jobs0 job Hjob Hopen)
    as (jobs1 & p' & job' & Hrun & Hother & Hid & Hok & Hp').
  rewrite Hrun. apply NoDup_cons in Hnd as [Hnotin Hnd].
  assert (Hrec1 : forall id' j, jobs1 !! id' = Some j -> record_ok j).
  { intros id' j Hj. destruct (decide (id' = id)) as [-> | Hne].
    - rewrite Hid in Hj. by injection Hj as <-.
    - rewrite (Hother id' Hne) in Hj. by eapply Hrec. }
  assert (Hq : forall id', id' ∈ q.*1 ->
                           exists j, jobs1 !! id' = Some j /\ open_record j).
  { intros id' Hin. assert (id' ≠ id) as Hne by (intros ->; done).
    rewrite (Hother id' Hne). apply Hpend. by apply list_elem_of_further. }
  destruct Hp' as [-> | [Hpaused Hopen']].
  - unfold settle. cbn [snd fst]. split; cbn [jobs running queue]; try done.
  - destruct p' as [| | | R c k]; try done.
    unfold settle. cbn [snd fst]. split; cbn [jobs running queue].
    + exact Hrec1.
    + intros id' p' [= <- <-]. exact Hpaused.
    + unfold pending_ids. cbn [running queue app].
      intros id' [-> | Hin]%elem_of_cons; [by exists job' | by apply Hq].
    + unfold pending_ids. cbn [running queue app]. by apply NoDup_cons.
Qed.

Lemma invariant_initial : invariant initial.
Proof.
  split; cbn [initial jobs running queue].
  - intros id job H. by rewrite lookup_empty in H.
  - done.
  - unfold pending_ids. cbn. intros id H. by apply elem_of_nil in H.
  - apply NoDup_nil_2.
Qed.

Lemma postRender_state (jobId : string) (payload : value) (s : server) :
  (postRender jobId payload s).2 = s \/
  (postRender jobId payload s).2 = start_next (enqueued jobId payload s).
Proof. unfold postRender. destruct (_ || _); [by left | by right]. Qed.

Lemma invariant_enqueued (s : server) (jobId : string) (payload : value) :
  invariant s -> jobs s !! jobId = None -> invariant (enqueued jobId payload s).
Proof.
  intros [Hrec Hrun Hpend Hnd] Hfresh. unfold enqueued.
  assert (Hnotin : jobId ∉ pending_ids s).
  { intros Hin. destruct (Hpend _ Hin) as (job & Hjob & _). congruence. }
  assert (Hids : pending_ids
                   (mkServer (<[jobId:=queued_record]> (jobs s))
                             (queue s ++ [(jobId, payload)]) (running s))
                 = (pending_ids s ++ [jobId])%list).
  { unfold pending_ids. cbn [running queue]. by rewrite fmap_app, app_assoc. }
  split; cbn [jobs running].
  - intros id job. destruct (decide (jobId = id)) as [-> | Hne].
    + rewrite lookup_insert_eq. intros [= <-]. apply queued_record_open.
    + rewrite lookup_insert_ne by done. apply Hrec.
  - exact Hrun.
  - rewrite Hids. intros id [Hin | Hin]%elem_of_app.
    + rewrite lookup_insert_ne by (intros ->; done). by apply Hpend.
    + apply list_elem_of_singleton in Hin as ->. rewrite lookup_insert_eq.
      eexists. split; [reflexivity | apply queued_record_open].
  - rewrite Hids. apply NoDup_app. split; [done |].
    split; [| apply NoDup_singleton].
    intros id Hin ->%list_elem_of_singleton. done.
Qed.

Lemma invariant_start_next (s : server) : invariant s -> invariant (start_next s).
Proof.
  intros Hinv. unfold start_next. destruct s as [jobs0 q [task |]]; [done |].
  destruct q as [| [jobId cfg] rest]; [done |].
  destruct Hinv as [Hrec _ Hpend Hnd]. unfold pending_ids in Hpend, Hnd.
  cbn [jobs running queue app fmap list_fmap fst] in *.
  apply run_task_invariant; try done. apply processJob_live.
Qed.

Lemma invariant_post (s : server) (jobId : string) (payload : value) :
  invariant s -> jobs s !! jobId = None -> invariant (postRender jobId payload s).2.
Proof.
  intros Hinv Hfresh. destruct (postRender_state jobId payload s) as [-> | ->]; [done |].
  by apply invariant_start_next, invariant_enqueued.
Qed.

Lemma invariant_step (s s' : server) : invariant s -> step s s' -> invariant s'.
Proof.
  intros Hinv Hstep. destruct Hstep as [s jobId payload Hfresh | jobs0 jobId cfg rest
                                       | jobs0 queue0 jobId R c k r].
  - by apply invariant_post.
  - by apply (invariant_start_next (mkServer jobs0 ((jobId, cfg) :: rest) None)).
  - destruct Hinv as [Hrec Hrun Hpend Hnd]. unfold pending_ids in Hpend, Hnd.
    cbn [jobs running queue app] in *.
    apply run_task_invariant; try done.
    apply (Hrun jobId (Await c k) eq_refl).
Qed.

Lemma reachable_invariant (s : server) : reachable s -> invariant s.
Proof.
  induction 1 as [| s s' _ IH Hstep]; [apply invariant_initial |].
  by apply (invariant_step s s').
Qed.

(** A run of a task against a world is a path of the server. *)
Lemma reachable_run (w : world) (id : string) (p : Proc unit) :
  live id p ->
  forall (jobs0 : JobTable) (q : list (string * value)),
    reachable (settle id (run_sync p jobs0) q) ->
    reachable (mkServer (run w p jobs0).1.2 q None).
Proof.
  induction 1 as [patch k _ _ IH | patch _ | | R c k _ IH]; intros jobs0 q Hreach.
  - cbn [run_sync] in Hreach. cbn [run].
    specialize (IH _ _ Hreach).
    by destruct (run w k (setJob id patch jobs0)) as [[r j] l].
  - exact Hreach.
  - exact Hreach.
  - cbn [run]. apply IH.
    eapply reachable_step; [exact Hreach |]. apply step_resume.
Qed.

Lemma filter_defined (fields : list (string * value)) :
  Forall (fun kv => is_undefined kv.2 = false) fields ->
  filter (fun kv => is_undefined kv.2 = false) fields = fields.
Proof.
  induction 1 as [| kv fields Hkv _ IH]; [reflexivity |].
  by rewrite filter_cons_True, IH.
Qed.

(** C7. In every reachable state, the status query of an unknown identifier
    answers 404 with the error document "Not found"; for a known one it
    answers a document with exactly the four fields [status], [progress],
    [downloadUrl] and [error], where [downloadUrl] is the download path of
    the job when its status is completed and [null] for any other status. *)
Theorem getStatus_document (s : server) (id : string) :
  reachable s ->
  match jobs s !! id with
  | None => getStatus id s = mkResponse 404 (JsonBody [("error", VStr "Not found")])
  | Some job =>
      exists (st : string) (p : Z) (err : value),
        job !! "status" = Some (VStr st) /\
        (err = VNull \/ exists msg, err = VStr msg) /\
        getStatus id s =
          mkResponse 200
            (JsonBody [ ("status", VStr st);
                        ("progress", num p);
                        ("downloadUrl", if bool_decide (st = "completed")
                                        then VStr ("/download/" ++ id) else VNull);
                        ("error", err) ])
  end.
Proof.
  intros Hreach. apply reachable_invariant in Hreach.
  unfold getStatus. destruct (jobs s !! id) as [job |] eqn:Hjob; [| reflexivity].
  destruct (inv_records s Hreach id job Hjob) as (st & p & Hst & Hp & He & Hf).
  exists st, p, (field job "error"). split; [exact Hst |].
  split; [unfold field; destruct He as [-> | [msg ->]]; [by left | right; by eexists] |].
  unfold res_json, field. rewrite Hst, Hp. cbn [default].
  assert (Hurl : (if truthy (default VUndefined (job !! "file"))
                  then VStr ("/download/" ++ id) else VNull)
                 = if bool_decide (st = "completed")
                   then VStr ("/download/" ++ id) else VNull).
  { destruct Hf as [[Hne ->] | [-> (path & -> & Hpath)]].
    - by rewrite bool_decide_eq_false_2.
    - cbn [default from_option Datatypes.id truthy].
      by rewrite (proj2 (String.eqb_neq _ _) Hpath). }
  rewrite Hurl. rewrite filter_defined; [reflexivity |].
  repeat constructor; cbn [snd].
  - by destruct (bool_decide _).
  - by destruct He as [-> | [msg ->]].
Qed.

(** C8 (as amended). In every reachable state, the download query of an
    unknown identifier and that of a job that has not completed get the same
    answer, status 404 with the text "Not ready"; for a completed job the
    answer is the output file of the job, sent as the attachment
    [export.mp4]. *)
Theorem getDownload_signals (s : server) (id : string) :
  reachable s ->
  match jobs s !! id with
  | None => getDownload id s = mkResponse 404 (TextBody "Not ready")
  | Some job =>
      exists st : string,
        job !! "status" = Some (VStr st) /\
        if bool_decide (st = "completed")
        then exists path : string,
               path ≠ "" /\ job !! "file" = Some (VStr path) /\
               getDownload id s = mkResponse 200 (Attachment (VStr path) "export.mp4")
        else getDownload id s = mkResponse 404 (TextBody "Not ready")
  end.
Proof.
  intros Hreach. apply reachable_invariant in Hreach.
  unfold getDownload. destruct (jobs s !! id) as [job |] eqn:Hjob; [| reflexivity].
  destruct (inv_records s Hreach id job Hjob) as (st & p & Hst & Hp & He & Hf).
  exists st. split; [exact Hst |]. unfold field.
  destruct Hf as [[Hne ->] | [-> (path & -> & Hpath)]].
  - by rewrite bool_decide_eq_false_2.
  - rewrite bool_decide_eq_true_2 by reflexivity. exists path.
    cbn [default from_option Datatypes.id truthy].
    by rewrite (proj2 (String.eqb_neq _ _) Hpath).
Qed.

(** ** More on the job table *)

(** X1. Two successive patches of one job amount to one patch, the merge of
    the two in which the later one wins; patching twice with the same patch
    is patching once. *)
Theorem setJob_setJob (id : string) (p1 p2 : Job) (jobs : JobTable) :
  setJob id p2 (setJob id p1 jobs) = setJob id (spread p1 p2) jobs /\
  setJob id p1 (setJob id p1 jobs) = setJob id p1 jobs.
Proof.
  assert (H : forall q1 q2 : Job,
             setJob id q2 (setJob id q1 jobs) = setJob id (spread q1 q2) jobs).
  { intros q1 q2. unfold setJob at 1. rewrite setJob_lookup_eq. cbn [default from_option Datatypes.id].
    unfold setJob. rewrite insert_insert_eq. f_equal.
    unfold spread. by rewrite (assoc_L (∪)). }
  split; [apply H |].
  rewrite H. f_equal. unfold spread. apply map_eq. intros k.
  rewrite lookup_union. by destruct (p1 !! k).
Qed.

(** X2. Patching a job that has no record creates one, made of the fields
    of the patch and of nothing else. *)
Theorem setJob_unknown (id : string) (patch : Job) (jobs : JobTable) :
  jobs !! id = None ->
  setJob id patch jobs !! id = Some patch /\
  dom (setJob id patch jobs) = {[id]} ∪ dom jobs.
Proof.
  intros Hnone. split.
  - rewrite setJob_lookup_eq, Hnone. cbn [default from_option Datatypes.id].
    unfold spread. by rewrite (right_id_L ∅ (∪)).
  - unfold setJob. apply dom_insert_L.
Qed.

(** X3. Patches of two different jobs commute. *)
Theorem setJob_commute (id1 id2 : string) (p1 p2 : Job) (jobs : JobTable) :
  id1 ≠ id2 ->
  setJob id1 p1 (setJob id2 p2 jobs) = setJob id2 p2 (setJob id1 p1 jobs).
Proof.
  intros Hne. unfold setJob at 1 3.
  rewrite (setJob_lookup_ne id2 id1) by done.
  rewrite (setJob_lookup_ne id1 id2) by done.
  unfold setJob. by apply insert_insert_ne.
Qed.

(** ** More on submission *)

Lemma is_zero_length (clips : value) :
  Array_isArray clips = true ->
  is_zero (getPropOpt clips "length") = true <-> clips = VArr [].
Proof.
  destruct clips as [| | | | | l |]; try discriminate. intros _.
  destruct l as [| c cs]; [done |].
  split; [| discriminate]. cbn. intros H.
  apply bool_decide_eq_true_1 in H. exfalso.
  assert (Hq : Qnum (Qc_of_Z (Z.of_nat (S (length cs)))) = Qnum (Qc_of_Z 0)) by (by rewrite H).
  cbn in Hq. lia.
Qed.

(** X4. A request is accepted exactly when its [sourceUrl] is truthy and
    its [clips] is a non-empty array; every other request is answered 400.
    A [sourceUrl] that is present but falsy (the empty string, 0, [null],
    [false]) is thus refused like an absent one. *)
Theorem postRender_accepts_iff (jobId : string) (payload : value) (s : server) :
  (code (postRender jobId payload s).1 = 200 \/ code (postRender jobId payload s).1 = 400) /\
  (code (postRender jobId payload s).1 = 200 <->
   truthy (getPropOpt payload "sourceUrl") = true /\
   exists c cs, getPropOpt payload "clips" = VArr (c :: cs)).
Proof.
  unfold postRender.
  destruct (truthy (getPropOpt payload "sourceUrl")) eqn:Hsrc; cbn [negb orb].
  - destruct (Array_isArray (getPropOpt payload "clips")) eqn:Harr; cbn [negb orb].
    + pose proof (is_zero_length _ Harr) as Hzero.
      destruct (is_zero _) eqn:Hz.
      * cbn. split; [by right |]. split; [discriminate |].
        intros (_ & c & cs & Hc). rewrite (proj1 Hzero eq_refl) in Hc. discriminate.
      * cbn. split; [by left |]. split; [| done]. intros _. split; [done |].
        destruct (getPropOpt payload "clips") as [| | | | | l |]; try discriminate.
        destruct l as [| c cs]; [| by eexists _, _].
        destruct Hzero as [_ Hzero]. by rewrite Hzero in Hz.
    + cbn. split; [by right |]. split; [discriminate |].
      intros (_ & c & cs & Hc). by rewrite Hc in Harr.
  - cbn. split; [by right |]. split; [discriminate |]. by intros [? _].
Qed.

Lemma start_processJob (jobId : string) (cfg : value) (jobs0 : JobTable)
    (q : list (string * value)) :
  exists k,
    settle jobId (run_sync (processJob jobId cfg) jobs0) q =
      mkServer (setJob jobId {[ "status" := VStr "downloading"; "progress" := num 5 ]} jobs0) q
               (Some (jobId, Await (Mkdtemp (path_join (os_tmpdir rt) "render-")) k)).
Proof. eexists. reflexivity. Qed.

(** X5. An accepted request is answered with its job identifier.  With the
    worker busy, the job gets the record of a queued job (progress 0, no
    file, no error), which its status query shows at once, and its task is
    put behind those already waiting; the running task is left as it is.
    With the server idle, the task is started before the handler returns:
    the job is then downloading, progress 5, and its task is the running
    one, waiting for the temporary directory.  In both cases the records of
    the other jobs are left as they are. *)
Theorem postRender_accepts (jobId : string) (payload : value) (s : server) (c : value)
    (cs : list value) :
  truthy (getPropOpt payload "sourceUrl") = true ->
  getPropOpt payload "clips" = VArr (c :: cs) ->
  let s' := (postRender jobId payload s).2 in
  (postRender jobId payload s).1 = mkResponse 200 (JsonBody [("jobId", VStr jobId)]) /\
  (is_Some (running s) ->
   jobs s' = <[jobId := queued_record]> (jobs s) /\
   queue s' = (queue s ++ [(jobId, payload)])%list /\
   running s' = running s /\
   getStatus jobId s' =
     mkResponse 200 (JsonBody [ ("status", VStr "queued"); ("progress", num 0);
                                ("downloadUrl", VNull); ("error", VNull) ])) /\
  (running s = None -> queue s = [] ->
   jobs s' = <[jobId := {[ "status" := VStr "downloading"; "progress" := num 5;
                           "file" := VNull; "error" := VNull ]}]> (jobs s) /\
   queue s' = [] /\
   (exists k, running s' =
                Some (jobId, Await (Mkdtemp (path_join (os_tmpdir rt) "render-")) k)) /\
   getStatus jobId s' =
     mkResponse 200 (JsonBody [ ("status", VStr "downloading"); ("progress", num 5);
                                ("downloadUrl", VNull); ("error", VNull) ])).
Proof.
  intros Hsrc Hclips s'. subst s'. unfold postRender. rewrite Hsrc, Hclips.
  cbn [negb orb Array_isArray].
  assert (Hz : is_zero (getPropOpt (VArr (c :: cs)) "length") = false).
  { destruct (is_zero _) eqn:Hz; [| done].
    apply (is_zero_length (VArr (c :: cs)) eq_refl) in Hz. discriminate. }
  rewrite Hz. cbn [fst snd]. unfold queue_add, start_next. cbn [jobs queue running].
  split; [reflexivity |]. split.
  - intros [task Htask]. rewrite Htask. cbn [jobs queue running].
    repeat split. unfold getStatus. cbn [jobs]. rewrite lookup_insert_eq. reflexivity.
  - intros Hidle Hempty. rewrite Hidle, Hempty. cbn [app].
    destruct (start_processJob jobId payload (<[jobId:=queued_record]> (jobs s)) []) as [k ->].
    cbn [jobs queue running].
    assert (Hrec : setJob jobId {[ "status" := VStr "downloading"; "progress" := num 5 ]}
                     (<[jobId:=queued_record]> (jobs s)) =
                   <[jobId := {[ "status" := VStr "downloading"; "progress" := num 5;
                                 "file" := VNull; "error" := VNull ]}]> (jobs s)).
    { unfold setJob. by rewrite lookup_insert_eq, insert_insert_eq. }
    rewrite Hrec. split; [reflexivity |]. split; [reflexivity |].
    split; [by exists k |].
    unfold getStatus. cbn [jobs]. rewrite lookup_insert_eq. reflexivity.
Qed.

(** ** [download] *)

(** X6. When the remote answers with a status that is not a success,
    [download] throws an error whose message carries the status code and
    text, and does nothing else: no directory is made, no file written, no
    job record touched. *)
Theorem download_bad_status (w : world) (url : value) (destPath : string)
    (jobs : JobTable) (r : FetchResponse) :
  w _ (Fetch url) = inr r ->
  resp_ok r = false ->
  run w (download url destPath) jobs =
    (inl (Error ("Download failed: " ++ pretty (resp_status r) ++ " " ++ resp_statusText r)),
     jobs, []) /\
  calls w (download url destPath) = [a_call (Fetch url)].
Proof.
  intros Hfetch Hok. unfold download, await. cbn [bindP run calls].
  rewrite Hfetch. cbn [bindP run calls]. rewrite Hok. by cbn.
Qed.

(** X7. A rejected fetch is passed on as it is.  After a successful answer
    [download] first makes the directory of the destination, then writes the
    body there, and the write is only started once the directory is made;
    it returns when both succeed and passes on the rejection of the one that
    fails.  It never touches the job table. *)
Theorem download_outcome (w : world) (url : value) (destPath : string) (jobs : JobTable) :
  (forall e, w _ (Fetch url) = inl e ->
             run w (download url destPath) jobs = (inl e, jobs, []) /\
             calls w (download url destPath) = [a_call (Fetch url)]) /\
  (forall r, w _ (Fetch url) = inr r -> resp_ok r = true ->
             run w (download url destPath) jobs =
               (match w _ (Mkdir (path_dirname destPath)) with
                | inl e => inl e
                | inr _ => w _ (PipeToFile r destPath)
                end, jobs, []) /\
             calls w (download url destPath) =
               a_call (Fetch url) :: a_call (Mkdir (path_dirname destPath)) ::
               match w _ (Mkdir (path_dirname destPath)) with
               | inl _ => []
               | inr _ => [a_call (PipeToFile r destPath)]
               end).
Proof.
  split.
  - intros e Hfetch. unfold download, await. cbn [bindP run calls].
    rewrite Hfetch. by cbn.
  - intros r Hfetch Hok. unfold download, await. cbn [bindP run calls].
    rewrite Hfetch. cbn [bindP run calls]. rewrite Hok. cbn [negb bindP run calls].
    destruct (w _ (Mkdir (path_dirname destPath))) as [e | []]; cbn [bindP run calls]; [done |].
    by destruct (w _ (PipeToFile r destPath)) as [e | []].
Qed.

(** ** More on the filter graph *)

Lemma forEach_valid_prefix (good : list value) (times : list (number * number))
    (l : list value) :
  Forall2 valid_clip good times ->
  forall (i : nat) (acc : list string),
    forEach clipBody (good ++ l) i acc =
    forEach clipBody l (i + length good) (acc ++ trim_pairs i times)%list.
Proof.
  induction 1 as [| c se good times Hc _ IH]; intros i acc.
  - cbn [app length trim_pairs]. by rewrite Nat.add_0_r, app_nil_r.
  - cbn [app forEach length trim_pairs]. unfold bindB at 1.
    rewrite (clipBody_valid _ _ _ _ Hc), IH.
    replace (S i + length good) with (i + S (length good)) by lia.
    by rewrite <- app_assoc.
Qed.

Lemma requireNumber_accepts (v : value) (name : string) :
  ~ not_a_number v -> requireNumber v name = inr tt.
Proof.
  intros Hv. destruct v as [| | | n | | |];
    try (exfalso; apply Hv; left; discriminate).
  apply requireNumber_ok. intros ->. apply Hv. by right.
Qed.

Lemma forEach_throws (cfg : value) (clips : list value) (e : exn) (acc' : list string) :
  getProp cfg "clips" = inr (VArr clips) ->
  forEach clipBody clips 0 [] = (inl e, acc') ->
  buildFilterParts cfg = inl e.
Proof.
  intros Hclips Hloop. unfold buildFilterParts, filterGraph, bindB, liftB.
  by rewrite Hclips, Hloop.
Qed.

(** X8. The compilation reports the first clip it refuses, in list order,
    whatever comes after it, and for that clip the first check that fails:
    the start bound, then the end bound, then their order. *)
Theorem first_refused_clip_reported (cfg : value) (good : list value)
    (times : list (number * number)) (bad : value) (rest : list value) (s e : value) :
  getProp cfg "clips" = inr (VArr (good ++ bad :: rest)) ->
  Forall2 valid_clip good times ->
  getProp bad "start" = inr s ->
  getProp bad "end" = inr e ->
  (not_a_number s ->
   buildFilterParts cfg = inl (Error "clip.start must be a number")) /\
  (~ not_a_number s -> not_a_number e ->
   buildFilterParts cfg = inl (Error "clip.end must be a number")) /\
  (~ not_a_number s -> ~ not_a_number e -> js_le e s = true ->
   buildFilterParts cfg = inl (Error "clip.end must be > clip.start")).
Proof.
  intros Hclips Hgood Hs He.
  assert (Hthrow : forall err,
             clipBody bad (length good) (trim_pairs 0 times) = (inl err, trim_pairs 0 times) ->
             buildFilterParts cfg = inl err).
  { intros err Hb. eapply forEach_throws; [exact Hclips |].
    rewrite (forEach_valid_prefix _ _ _ Hgood). cbn [forEach app Nat.add].
    unfold bindB. by rewrite Hb. }
  repeat split.
  - intros Hbad. apply Hthrow. unfold clipBody, bindB, liftB.
    by rewrite Hs, (requireNumber_refuses _ _ Hbad).
  - intros Hok Hbad. apply Hthrow. unfold clipBody, bindB, liftB.
    by rewrite Hs, He, (requireNumber_accepts _ _ Hok), (requireNumber_refuses _ _ Hbad).
  - intros Hok1 Hok2 Hle. apply Hthrow. unfold clipBody, bindB, liftB.
    by rewrite Hs, He, !requireNumber_accepts, Hle by assumption.
Qed.

Lemma not_refused_valid (c : value) :
  ~ refused_clip c -> exists se, valid_clip c se.
Proof.
  unfold refused_clip, valid_clip. intros H.
  destruct (getProp c "start") as [? | s]; [by destruct H |].
  destruct (getProp c "end") as [? | e]; [by destruct H |].
  destruct s as [| | | ns | | |]; try (destruct H; left; left; discriminate).
  destruct e as [| | | ne | | |]; try (destruct H; right; left; left; discriminate).
  exists (ns, ne). cbn [fst snd]. repeat split.
  - intros ->. apply H. left. by right.
  - intros ->. apply H. right. left. by right.
  - destruct (number_le ne ns) eqn:Hle; [| done]. destruct H. right. right. exact Hle.
Qed.

Lemma all_accepted_valid (clips : list value) :
  Forall (fun c => ~ refused_clip c) clips -> exists times, Forall2 valid_clip clips times.
Proof.
  induction 1 as [| c clips Hc _ [times IH]]; [by exists [] |].
  destruct (not_refused_valid c Hc) as [se Hse]. exists (se :: times). by constructor.
Qed.

Lemma forEach_returns (clips : list value) :
  forall (i : nat) (acc acc' : list string),
    forEach clipBody clips i acc = (inr tt, acc') ->
    Forall (fun c => ~ refused_clip c) clips.
Proof.
  induction clips as [| c clips IH]; intros i acc acc' Hloop; [constructor |].
  cbn [forEach] in Hloop. unfold bindB in Hloop.
  destruct (clipBody c i acc) as [[e | []] acc1] eqn:Hbody; [discriminate |].
  constructor; [| by eapply IH].
  intros Hbad. destruct (clipBody_refused c i acc Hbad) as [e He]. congruence.
Qed.

(** X9. Given the clip array of a request, the filter graph compiles exactly
    when no clip is refused and the effective width, height and frame rate
    all convert to text; an empty clip array is not an obstacle at this
    stage. *)
Theorem buildFilterParts_succeeds_iff (cfg : value) (clips : list value) :
  getProp cfg "clips" = inr (VArr clips) ->
  (exists parts, buildFilterParts cfg = inr parts) <->
  Forall (fun c => ~ refused_clip c) clips /\
  exists ws hs fs,
    ToString (js_or (getPropOpt cfg "width") (num 1920)) = inr ws /\
    ToString (js_or (getPropOpt cfg "height") (num 1080)) = inr hs /\
    ToString (js_or (getPropOpt cfg "fps") (num 30)) = inr fs.
Proof.
  intros Hclips. split.
  - intros [parts Hparts]. unfold buildFilterParts, filterGraph, bindB, liftB in Hparts.
    rewrite Hclips, !(getProp_readable _ _ _ Hclips) in Hparts.
    destruct (forEach clipBody clips 0 []) as [[e | []] acc] eqn:Hloop; [discriminate |].
    split; [by eapply forEach_returns |].
    cbn [pushB] in Hparts.
    destruct (ToString (js_or (getPropOpt cfg "width") (num 1920))) as [? | ws];
      [discriminate |].
    destruct (ToString (js_or (getPropOpt cfg "height") (num 1080))) as [? | hs];
      [discriminate |].
    destruct (ToString (js_or (getPropOpt cfg "fps") (num 30))) as [? | fs];
      [discriminate |].
    by exists ws, hs, fs.
  - intros [Hall (ws & hs & fs & Hw & Hh & Hf)].
    destruct (all_accepted_valid clips Hall) as [times Hvalid].
    eexists. by apply (buildFilterParts_valid cfg clips times ws hs fs).
Qed.

(** X10. The dimensions are not validated: a width, height or frame rate
    given as a non-empty text is copied into the last stage as it is. *)
Theorem text_dimensions_copied (cfg : value) (clips : list value)
    (times : list (number * number)) (ws hs fs : string) :
  getProp cfg "clips" = inr (VArr clips) ->
  Forall2 valid_clip clips times ->
  getPropOpt cfg "width" = VStr ws -> ws ≠ "" ->
  getPropOpt cfg "height" = VStr hs -> hs ≠ "" ->
  getPropOpt cfg "fps" = VStr fs -> fs ≠ "" ->
  exists parts,
    buildFilterParts cfg = inr parts /\
    last parts =
      Some ("[vout]scale=" ++ ws ++ ":" ++ hs ++ ":force_original_aspect_ratio=decrease,pad=" ++
            ws ++ ":" ++ hs ++ ":(ow-iw)/2:(oh-ih)/2,fps=" ++ fs ++ "[vfinal]").
Proof.
  intros Hclips Hvalid Hw Hw0 Hh Hh0 Hf Hf0.
  eexists. split.
  - apply (buildFilterParts_valid cfg clips times ws hs fs); try assumption.
    + rewrite Hw. unfold js_or. cbn [truthy]. by rewrite (proj2 (String.eqb_neq _ _) Hw0).
    + rewrite Hh. unfold js_or. cbn [truthy]. by rewrite (proj2 (String.eqb_neq _ _) Hh0).
    + rewrite Hf. unfold js_or. cbn [truthy]. by rewrite (proj2 (String.eqb_neq _ _) Hf0).
  - by rewrite last_app.
Qed.

(** ** More on [processJob] *)

Lemma run_final {A} (w : world) (p : Proc A) (jobs : JobTable) :
  (run w p jobs).1.2 = foldl (fun t entry => setJob entry.1 entry.2 t) jobs (run w p jobs).2.
Proof.
  revert jobs. induction p as [a | e | id patch k IH | R c k IH]; intros jobs;
    cbn [run]; try reflexivity.
  - specialize (IH (setJob id patch jobs)).
    by destruct (run w k (setJob id patch jobs)) as [[r j] l].
  - apply IH.
Qed.

Lemma foldl_setJob_other (id id' : string) (log : list (string * Job)) :
  Forall (fun entry => entry.1 = id) log ->
  id' ≠ id ->
  forall jobs : JobTable,
    foldl (fun t entry => setJob entry.1 entry.2 t) jobs log !! id' = jobs !! id'.
Proof.
  induction 1 as [| [i patch] log Hi _ IH]; intros Hne jobs; [reflexivity |].
  cbn [foldl fst snd] in *. subst i. rewrite (IH Hne). by apply setJob_lookup_ne.
Qed.

(** X11. A run of [processJob] writes the record of its own job and no
    other: the records of all other jobs are after the run what they were
    before, and the job has a record. *)
Theorem processJob_own_record (w : world) (id : string) (cfg : value) (jobs : JobTable) :
  delete id (run w (processJob id cfg) jobs).1.2 = delete id jobs /\
  is_Some ((run w (processJob id cfg) jobs).1.2 !! id).
Proof.
  destruct (processJob_writes w id cfg jobs) as [Hid Hst]. split.
  - apply map_eq. intros id'. destruct (decide (id' = id)) as [-> | Hne].
    + by rewrite !lookup_delete_eq.
    + rewrite !lookup_delete_ne by done. rewrite run_final.
      by apply (foldl_setJob_other id).
  - rewrite run_final.
    destruct (run w (processJob id cfg) jobs).2 as [| entry log] using rev_ind.
    + repeat (apply elem_of_cons in Hst as [Hst | Hst]); try discriminate Hst.
      by apply elem_of_nil in Hst.
    + apply Forall_app in Hid as [_ Hid]. apply Forall_cons in Hid as [Hid _].
      rewrite foldl_app. cbn [foldl]. rewrite Hid, setJob_lookup_eq. by eexists.
Qed.

(** X12. A job ends completed exactly when everything goes through: the
    temporary directory is made, the source is fetched with a success status
    and written, the graph compiles and the engine ends well.  Any other
    course ends failed. *)
Theorem processJob_completes_iff (w : world) (id : string) (cfg : value) (jobs : JobTable) :
  (status_of id (run w (processJob id cfg) jobs).1.2 = VStr "completed" <->
   exists tmpDir url r parts, goes_through w cfg tmpDir url r parts) /\
  (status_of id (run w (processJob id cfg) jobs).1.2 = VStr "completed" \/
   status_of id (run w (processJob id cfg) jobs).1.2 = VStr "failed").
Proof.
  job_cases w.
  all: repeat match goal with u : unit |- _ => destruct u end.
  all: first
    [ rewrite (status_of_setJob id _ _ "failed") by reflexivity;
      split; [| by right];
      split; [discriminate |];
      intros (tmpDir' & url' & r' & parts' & G); unfold goes_through in G;
      destruct G as (G1 & G2 & G3 & G4 & G5 & G6 & G7 & G8); congruence
    | rewrite (status_of_setJob id _ _ "completed") by reflexivity;
      split; [| by left];
      split; [| done]; intros _;
      eexists _, _, _, _; unfold goes_through; repeat split; eassumption ].
Qed.

Lemma path_join_truthy (dir name : string) : truthy (VStr (path_join dir name)) = true.
Proof.
  cbn [truthy]. by rewrite (proj2 (String.eqb_neq _ _) (path_join_nonempty dir name)).
Qed.

(** The two queries on a record whose fields are known. *)
Lemma poll_record (id : string) (s : server) (job : Job) (st p err : value) (path : string) :
  jobs s !! id = Some job ->
  job !! "status" = Some st -> job !! "progress" = Some p -> job !! "error" = Some err ->
  job !! "file" = Some (VStr path) -> truthy (VStr path) = true ->
  is_undefined st = false -> is_undefined p = false -> is_undefined err = false ->
  getStatus id s =
    mkResponse 200 (JsonBody [ ("status", st); ("progress", p);
                               ("downloadUrl", VStr ("/download/" ++ id)); ("error", err) ]) /\
  getDownload id s = mkResponse 200 (Attachment (VStr path) "export.mp4").
Proof.
  intros Hjob Hst Hp He Hf Ht Ust Up Ue. unfold getStatus, getDownload, res_json, field.
  rewrite Hjob, Hst, Hp, He, Hf. cbn [default from_option Datatypes.id]. rewrite Ht.
  split; [| reflexivity]. rewrite filter_defined; [reflexivity |].
  by repeat constructor.
Qed.

(** X13. When everything goes through for a queued job, the status query
    then answers completed, progress 100, the download path of the job and
    no error, and the download query sends [out.mp4] of the temporary
    directory of the job, which the record keeps. *)
Theorem completed_job_served (w : world) (id : string) (cfg : value) (table : JobTable)
    (tmpDir : string) (url : value) (r : FetchResponse) (parts : list string)
    (q : list (string * value)) (task : option (string * Proc unit)) :
  table !! id = Some queued_record ->
  goes_through w cfg tmpDir url r parts ->
  let s := mkServer (run w (processJob id cfg) table).1.2 q task in
  getStatus id s =
    mkResponse 200 (JsonBody [ ("status", VStr "completed"); ("progress", num 100);
                               ("downloadUrl", VStr ("/download/" ++ id));
                               ("error", VNull) ]) /\
  getDownload id s =
    mkResponse 200 (Attachment (VStr (path_join tmpDir "out.mp4")) "export.mp4") /\
  (exists job, jobs s !! id = Some job /\ job !! "tmpDir" = Some (VStr tmpDir)).
Proof.
  intros Hjob (G1 & G2 & G3 & G4 & G5 & G6 & G7 & G8) s. subst s.
  unfold processJob, processJob_try, processJob_catch, download, setJobP, await.
  cbn [bindP try_catch run].
  rewrite G1. cbn [bindP try_catch run]. rewrite G2. cbn [lift bindP try_catch run].
  rewrite G3. cbn [bindP try_catch run]. rewrite G4. cbn [negb bindP try_catch run].
  rewrite G5. cbn [bindP try_catch run]. rewrite G6. cbn [bindP try_catch run].
  rewrite G7. cbn [lift bindP try_catch run]. rewrite G8. cbn [bindP try_catch run fst snd].
  match goal with
  | |- context [mkServer ?t q task] =>
      assert (Hfinal : jobs (mkServer t q task) !! id =
                       Some (spread (spread (spread (spread queued_record
                          {[ "status" := VStr "downloading"; "progress" := num 5 ]})
                          {[ "status" := VStr "preparing"; "progress" := num 12 ]})
                          {[ "status" := VStr "rendering"; "progress" := num 20 ]})
                          {[ "status" := VStr "completed"; "progress" := num 100;
                             "file" := VStr (path_join tmpDir "out.mp4");
                             "tmpDir" := VStr tmpDir ]}))
        by (cbn [jobs]; by rewrite !setJob_lookup_eq, Hjob)
  end.
  destruct (poll_record id _ _ (VStr "completed") (num 100) VNull
              (path_join tmpDir "out.mp4") Hfinal) as [Hs Hd];
    try reflexivity; [apply path_join_truthy |].
  split; [exact Hs |]. split; [exact Hd |].
  eexists. split; [exact Hfinal | reflexivity].
Qed.

(** X14. In a run of [processJob] the render engine is started at most once,
    and only once the source has been fetched with a success status and
    written to [source.mp4] in the temporary directory and the graph has
    compiled; it is then given the bundled binary, that file as input, the
    compiled graph and [out.mp4] of the same directory as output. *)
Theorem engine_started_once (w : world) (id : string) (cfg : value) :
  omap engine_call (calls w (processJob id cfg)) = [] \/
  exists tmpDir url r parts,
    let srcPath := path_join tmpDir "source.mp4" in
    w _ (Mkdtemp (path_join (os_tmpdir rt) "render-")) = inr tmpDir /\
    getProp cfg "sourceUrl" = inr url /\
    w _ (Fetch url) = inr r /\
    resp_ok r = true /\
    w _ (PipeToFile r srcPath) = inr tt /\
    buildFilterParts cfg = inr parts /\
    omap engine_call (calls w (processJob id cfg)) =
      [ (ffmpegPath rt, ffArgs srcPath parts (path_join tmpDir "out.mp4"),
         (10 * 1024 * 1024)%N) ].
Proof.
  job_cases w.
  all: repeat match goal with u : unit |- _ => destruct u end.
  all: first [ left; reflexivity
             | right; eexists _, _, _, _; cbv zeta; repeat split; eassumption
             | right; eexists _, _, _, _; cbv zeta; repeat split; try eassumption;
               reflexivity ].
Qed.

(** X15. When the remote answers the fetch with a status that is not a
    success, the job ends failed and its error text carries the status code
    and text of the answer. *)
Theorem bad_status_reported (w : world) (id : string) (cfg : value) (jobs : JobTable)
    (tmpDir : string) (url : value) (r : FetchResponse) :
  w _ (Mkdtemp (path_join (os_tmpdir rt) "render-")) = inr tmpDir ->
  getProp cfg "sourceUrl" = inr url ->
  w _ (Fetch url) = inr r ->
  resp_ok r = false ->
  exists job,
    (run w (processJob id cfg) jobs).1.2 !! id = Some job /\
    job !! "status" = Some (VStr "failed") /\
    job !! "progress" = Some (num 0) /\
    job !! "error" =
      Some (VStr ("Error: Download failed: " ++ pretty (resp_status r) ++ " " ++
                  resp_statusText r)).
Proof.
  intros G1 G2 G3 G4.
  unfold processJob, processJob_try, processJob_catch, download, setJobP, await.
  cbn [bindP try_catch run].
  rewrite G1. cbn [bindP try_catch run]. rewrite G2. cbn [lift bindP try_catch run].
  rewrite G3. cbn [bindP try_catch run]. rewrite G4. cbn [negb bindP try_catch run fst snd].
  eexists. split; [apply setJob_lookup_eq |].
  rewrite !lookup_spread. repeat split.
Qed.

(** X16. Once [processJob] has run on a queued job, whatever the world
    answered, the status query gives one of two documents: completed with
    progress 100, a download path and no error, in which case the download
    query sends a file; or failed with progress 0, no download path and an
    error text, in which case the download query answers "Not ready". *)
Theorem finished_job_polled (w : world) (id : string) (cfg : value) (table : JobTable)
    (q : list (string * value)) (task : option (string * Proc unit)) :
  table !! id = Some queued_record ->
  let s := mkServer (run w (processJob id cfg) table).1.2 q task in
  (getStatus id s =
     mkResponse 200 (JsonBody [ ("status", VStr "completed"); ("progress", num 100);
                                ("downloadUrl", VStr ("/download/" ++ id));
                                ("error", VNull) ]) /\
   exists path, getDownload id s = mkResponse 200 (Attachment (VStr path) "export.mp4")) \/
  (exists msg,
     getStatus id s =
       mkResponse 200 (JsonBody [ ("status", VStr "failed"); ("progress", num 0);
                                  ("downloadUrl", VNull); ("error", VStr msg) ]) /\
     getDownload id s = mkResponse 404 (TextBody "Not ready")).
Proof.
  intros Hjob s. subst s. job_cases w.
  all: match goal with
       | |- context [mkServer ?t ?q0 ?t0] =>
           let H := fresh "Hfinal" in
           eassert (H : jobs (mkServer t q0 t0) !! id = Some _)
             by (cbn [jobs]; rewrite !setJob_lookup_eq, Hjob; reflexivity)
       end.
  all: first
    [ right; eexists; split; unfold getStatus, getDownload; rewrite Hfinal; reflexivity
    | left;
      match goal with
      | Hdir : _ = @inr exn string ?d |- _ =>
          destruct (poll_record id _ _ (VStr "completed") (num 100) VNull
                      (path_join d "out.mp4") Hfinal) as [Hs Hd];
          try reflexivity; [apply path_join_truthy |];
          split; [exact Hs | eexists; exact Hd]
      end ].
Qed.

(** ** The jobs of a reachable state *)

Lemma forward_source (cur st : string) :
  forward cur st -> cur ∈ ["queued"; "downloading"; "preparing"; "rendering"].
Proof. destruct 1 as [| | | | s Hs]; [member .. | pick Hs; member]. Qed.

Lemma forward_rank (cur st : string) : forward cur st -> rank cur < rank st.
Proof.
  destruct 1 as [| | | | s Hs]; try (cbv; lia). pick Hs; cbv; lia.
Qed.

Lemma rtc_forward_rank (cur st : string) : rtc forward cur st -> (rank cur <= rank st)%nat.
Proof.
  induction 1 as [| a b c Hab _ IH]; [lia |].
  apply forward_rank in Hab. lia.
Qed.

Lemma shaped_status (st st' : string) (job : Job) : shaped st job -> shaped st' job -> st = st'.
Proof. intros [H _] [H' _]. congruence. Qed.

Lemma queued_record_shaped : shaped "queued" queued_record.
Proof. by repeat split. Qed.

Lemma spread_shaped (cur st : string) (job patch : Job) :
  shaped cur job -> forward cur st -> patch_sets st patch -> shaped st (spread job patch).
Proof.
  intros (Hst & Hp & Hf & He) Hfwd (Pst & Pp & Pf & Pe).
  assert (Hnull : job !! "file" = Some VNull /\ job !! "error" = Some VNull).
  { apply forward_source in Hfwd. pick Hfwd; by split. }
  destruct Hnull as [Hfile Herr]. clear Hf He.
  unfold shaped. rewrite !lookup_spread, Pst, Pp.
  split; [done |]. split; [done |].
  split.
  - destruct (String.eqb st "completed").
    + destruct Pf as (path & Hpath & ->). by exists path.
    + by rewrite Pf.
  - destruct (String.eqb st "failed").
    + destruct Pe as (msg & ->). by exists msg.
    + by rewrite Pe.
Qed.

(** Running what is left of a call up to its next await. *)
Lemma run_sync_closing (id cur : string) (p : Proc unit) :
  closing id cur p ->
  forall (jobs0 : JobTable) (job : Job),
    jobs0 !! id = Some job ->
    shaped cur job ->
    exists (jobs1 : JobTable) (p' : Proc unit) (job' : Job) (st' : string),
      run_sync p jobs0 = (jobs1, p') /\
      (forall id', id' ≠ id -> jobs1 !! id' = jobs0 !! id') /\
      jobs1 !! id = Some job' /\
      shaped st' job' /\
      rtc forward cur st' /\
      ((p' = Ret tt /\ st' ∈ ["completed"; "failed"]) \/
       (paused_closing id st' p' /\ st' ∈ ["downloading"; "rendering"])).
Proof.
  induction 1 as [cur st patch k Hfwd Hst Hpatch _ IH | cur st patch Hfwd Hst Hpatch
                  | cur R c k Hcur Hk _];
    intros jobs0 job Hjob Hshape.
  - cbn [run_sync].
    destruct (IH (setJob id patch jobs0) (spread job patch))
      as (jobs1 & p' & job' & st' & Hrun & Hother & Hid & Hsh & Hrtc & Hp').
    { by rewrite setJob_lookup_eq, Hjob. }
    { by eapply spread_shaped. }
    exists jobs1, p', job', st'. split; [exact Hrun |]. split.
    { intros id' Hne. rewrite (Hother id' Hne). by apply setJob_lookup_ne. }
    split; [exact Hid |]. split; [exact Hsh |]. split; [| exact Hp'].
    by eapply rtc_l.
  - cbn [run_sync]. exists (setJob id patch jobs0), (Ret tt), (spread job patch), st.
    split; [reflexivity |].
    split; [intros id' Hne; by apply setJob_lookup_ne |].
    split; [by rewrite setJob_lookup_eq, Hjob |].
    split; [by eapply spread_shaped |].
    split; [by apply rtc_once |]. by left.
  - exists jobs0, (Await c k), job, cur.
    split; [reflexivity |]. split; [done |]. split; [done |]. split; [done |].
    split; [apply rtc_refl | by right].
Qed.

Lemma processJob_closing (id : string) (cfg : value) :
  closing id "queued" (processJob id cfg).
Proof.
  assert (Hfail : forall cur e,
             cur ∈ ["downloading"; "preparing"; "rendering"] ->
             closing id cur (processJob_catch id e)).
  { intros cur e Hcur. apply (closing_end id cur "failed").
    - apply forward_fail. pick Hcur; member.
    - member.
    - repeat split. by eexists. }
  unfold processJob, processJob_try, download, setJobP, await.
  cbn [bindP try_catch].
  apply (closing_write id _ "downloading");
    [apply forward_download | member | by repeat split |].
  apply closing_await; [member |].
  intros [e | tmpDir]; cbn [bindP try_catch]; [apply Hfail; member |].
  destruct (getProp cfg "sourceUrl") as [e | url]; cbn [lift bindP try_catch];
    [apply Hfail; member |].
  apply closing_await; [member |].
  intros [e | r]; cbn [bindP try_catch]; [apply Hfail; member |].
  destruct (resp_ok r); cbn [negb bindP try_catch]; [| apply Hfail; member].
  apply closing_await; [member |].
  intros [e | []]; cbn [bindP try_catch]; [apply Hfail; member |].
  apply closing_await; [member |].
  intros [e | []]; cbn [bindP try_catch]; [apply Hfail; member |].
  apply (closing_write id _ "preparing");
    [apply forward_prepare | member | by repeat split |].
  destruct (buildFilterParts cfg) as [e | parts]; cbn [lift bindP try_catch];
    [apply Hfail; member |].
  apply (closing_write id _ "rendering");
    [apply forward_render | member | by repeat split |].
  apply closing_await; [member |].
  intros [e | []]; cbn [bindP try_catch]; [apply Hfail; member |].
  apply (closing_end id _ "completed"); [apply forward_complete | member |].
  repeat split. eexists. split; [apply path_join_nonempty | reflexivity].
Qed.

Lemma settle_ended (id : string) (jobs1 : JobTable) (q : list (string * value)) :
  settle id (jobs1, Ret tt) q = mkServer jobs1 q None.
Proof. reflexivity. Qed.

Lemma settle_paused (id cur : string) (jobs1 : JobTable) (p : Proc unit)
    (q : list (string * value)) :
  paused_closing id cur p -> settle id (jobs1, p) q = mkServer jobs1 q (Some (id, p)).
Proof. by destruct p. Qed.

Lemma run_task_coherent (id cur : string) (p : Proc unit) (jobs0 : JobTable)
    (q : list (string * value)) :
  closing id cur p ->
  (exists job, jobs0 !! id = Some job /\ shaped cur job) ->
  (forall id', id' ∈ q.*1 -> exists job, jobs0 !! id' = Some job /\ shaped "queued" job) ->
  (forall id' job, jobs0 !! id' = Some job -> id' ∉ id :: q.*1 ->
                   exists st, shaped st job /\ st ∈ ["completed"; "failed"]) ->
  NoDup (id :: q.*1) ->
  coherent (settle id (run_sync p jobs0) q).
Proof.
  intros Hclosing (job & Hjob & Hshape) Hwait Hended Hnd.
  destruct (run_sync_closing id cur p Hclosing jobs0 job Hjob Hshape)
    as (jobs1 & p' & job' & st' & Hrun & Hother & Hid & Hsh & _ & Hp').
  rewrite Hrun. apply NoDup_cons in Hnd as [Hnotin Hnd].
  assert (Hq : forall id', id' ∈ q.*1 ->
                           exists j, jobs1 !! id' = Some j /\ shaped "queued" j).
  { intros id' Hin. assert (id' ≠ id) as Hne by (intros ->; done).
    rewrite (Hother id' Hne). by apply Hwait. }
  destruct Hp' as [[-> Hterm] | [Hpaused Hprog]].
  - rewrite settle_ended. split; cbn [jobs running queue]; try done.
    unfold pending_ids. cbn [running queue app].
    intros id' j Hj Hnot. destruct (decide (id' = id)) as [-> | Hne].
    + rewrite Hid in Hj. injection Hj as <-. by exists st'.
    + rewrite (Hother id' Hne) in Hj. apply (Hended id' j Hj).
      intros [-> | Hin]%elem_of_cons; done.
  - rewrite (settle_paused id st') by done. split; cbn [jobs running queue].
    + intros id' p0 [= <- <-]. by exists st', job'.
    + exact Hq.
    + unfold pending_ids. cbn [running queue app].
      intros id' j Hj Hnot. assert (id' ≠ id) as Hne.
      { intros ->. apply Hnot. apply list_elem_of_here. }
      rewrite (Hother id' Hne) in Hj. by apply (Hended id' j Hj).
    + unfold pending_ids. cbn [running queue app]. by apply NoDup_cons.
Qed.

Lemma coherent_initial : coherent initial.
Proof.
  split; cbn [initial jobs running queue]; try done.
  - intros id H. by apply elem_of_nil in H.
  - apply NoDup_nil_2.
Qed.

Lemma coherent_known (s : server) (id : string) :
  coherent s -> id ∈ pending_ids s -> is_Some (jobs s !! id).
Proof.
  intros [Hrun Hwait _ _]. unfold pending_ids.
  destruct (running s) as [[id0 p] |] eqn:Hr; cbn [app].
  - intros [-> | Hin]%elem_of_cons.
    + destruct (Hrun id0 p eq_refl) as (st & job & Hjob & _). by eexists.
    + destruct (Hwait id Hin) as (job & Hjob & _). by eexists.
  - intros Hin. destruct (Hwait id Hin) as (job & Hjob & _). by eexists.
Qed.

Lemma coherent_enqueued (s : server) (jobId : string) (payload : value) :
  coherent s -> jobs s !! jobId = None -> coherent (enqueued jobId payload s).
Proof.
  intros Hcoh Hfresh. unfold enqueued.
  assert (Hnotin : jobId ∉ pending_ids s).
  { intros Hin. destruct (coherent_known s jobId Hcoh Hin) as [job Hjob]. congruence. }
  destruct Hcoh as [Hrun Hwait Hended Hnd].
  assert (Hids : pending_ids
                   (mkServer (<[jobId:=queued_record]> (jobs s))
                             (queue s ++ [(jobId, payload)]) (running s))
                 = (pending_ids s ++ [jobId])%list).
  { unfold pending_ids. cbn [running queue]. by rewrite fmap_app, app_assoc. }
  split; cbn [jobs running queue].
  - intros id p Hr. destruct (Hrun id p Hr) as (st & job & Hjob & Hrest).
    exists st, job. split; [| exact Hrest].
    rewrite lookup_insert_ne; [done |]. intros ->. congruence.
  - rewrite fmap_app. intros id [Hin | Hin]%elem_of_app.
    + destruct (Hwait id Hin) as (job & Hjob & Hsh). exists job. split; [| done].
      rewrite lookup_insert_ne; [done |]. intros ->. congruence.
    + apply list_elem_of_singleton in Hin as ->. rewrite lookup_insert_eq.
      eexists. split; [reflexivity | apply queued_record_shaped].
  - rewrite Hids. intros id job Hjob Hnot.
    destruct (decide (jobId = id)) as [-> | Hne].
    + exfalso. apply Hnot. apply elem_of_app. right. apply list_elem_of_here.
    + rewrite lookup_insert_ne in Hjob by done. apply (Hended id job Hjob).
      intros Hin. apply Hnot. apply elem_of_app. by left.
  - rewrite Hids. apply NoDup_app. split; [done |].
    split; [| apply NoDup_singleton].
    intros id Hin ->%list_elem_of_singleton. done.
Qed.

Lemma coherent_start_next (s : server) : coherent s -> coherent (start_next s).
Proof.
  intros Hcoh. unfold start_next. destruct s as [jobs0 q [task |]]; [done |].
  destruct q as [| [jobId cfg] rest]; [done |].
  destruct Hcoh as [_ Hwait Hended Hnd]. unfold pending_ids in Hended, Hnd.
  cbn [jobs running queue app fmap list_fmap fst] in *.
  apply (run_task_coherent jobId "queued"); try done.
  - apply processJob_closing.
  - apply Hwait. apply list_elem_of_here.
  - intros id' Hin. apply Hwait. by apply list_elem_of_further.
Qed.

Lemma coherent_post (s : server) (jobId : string) (payload : value) :
  coherent s -> jobs s !! jobId = None -> coherent (postRender jobId payload s).2.
Proof.
  intros Hcoh Hfresh. destruct (postRender_state jobId payload s) as [-> | ->]; [done |].
  by apply coherent_start_next, coherent_enqueued.
Qed.

Lemma coherent_step (s s' : server) : coherent s -> step s s' -> coherent s'.
Proof.
  intros Hcoh Hstep. destruct Hstep as [s jobId payload Hfresh | jobs0 jobId cfg rest
                                       | jobs0 queue0 jobId R c k r].
  - by apply coherent_post.
  - by apply (coherent_start_next (mkServer jobs0 ((jobId, cfg) :: rest) None)).
  - destruct Hcoh as [Hrun Hwait Hended Hnd]. unfold pending_ids in Hended, Hnd.
    cbn [jobs running queue app] in *.
    destruct (Hrun jobId (Await c k) eq_refl) as (st & job & Hjob & Hsh & _ & Hpaused).
    apply (run_task_coherent jobId st); try done. by exists job.
Qed.

Lemma reachable_coherent (s : server) : reachable s -> coherent s.
Proof.
  induction 1 as [| s s' _ IH Hstep]; [apply coherent_initial |].
  by apply (coherent_step s s').
Qed.

(** The status of a job of a coherent state, by what the job is doing. *)
Lemma coherent_status (s : server) (id : string) (job : Job) :
  coherent s ->
  jobs s !! id = Some job ->
  exists st,
    shaped st job /\
    ((st ∈ ["downloading"; "rendering"] /\ exists p, running s = Some (id, p)) \/
     (st = "queued" /\ id ∈ (queue s).*1) \/
     (st ∈ ["completed"; "failed"] /\ id ∉ pending_ids s)).
Proof.
  intros Hcoh Hjob. destruct (decide (id ∈ pending_ids s)) as [Hin | Hnot].
  - destruct Hcoh as [Hrun Hwait _ _]. unfold pending_ids in Hin.
    destruct (running s) as [[id0 p] |] eqn:Hr; cbn [app] in Hin.
    + apply elem_of_cons in Hin as [-> | Hin].
      * destruct (Hrun id0 p eq_refl) as (st & job' & Hjob' & Hsh & Hst & _).
        rewrite Hjob in Hjob'. injection Hjob' as <-.
        exists st. split; [done |]. left. split; [done | by exists p].
      * destruct (Hwait id Hin) as (job' & Hjob' & Hsh).
        rewrite Hjob in Hjob'. injection Hjob' as <-.
        exists "queued". split; [done |]. right. by left.
    + destruct (Hwait id Hin) as (job' & Hjob' & Hsh).
      rewrite Hjob in Hjob'. injection Hjob' as <-.
      exists "queued". split; [done |]. right. by left.
  - destruct (coh_ended s Hcoh id job Hjob Hnot) as (st & Hsh & Hst).
    exists st. split; [done |]. right. by right.
Qed.

(** X17. In every reachable state the fields of a job record agree with
    its status: the progress is the one written with that status, the output
    file is set exactly when the job is completed and the error exactly when
    it has failed, so that the two are never set together. *)
Theorem record_agrees_with_status (s : server) (id : string) (job : Job) :
  reachable s ->
  jobs s !! id = Some job ->
  exists st,
    job !! "status" = Some (VStr st) /\
    job !! "progress" = Some (num (progress_of st)) /\
    (field job "file" ≠ VNull <-> st = "completed") /\
    (field job "error" ≠ VNull <-> st = "failed") /\
    (field job "file" = VNull \/ field job "error" = VNull).
Proof.
  intros Hreach Hjob. apply reachable_coherent in Hreach.
  destruct (coherent_status s id job Hreach Hjob) as (st & Hsh & Hclass).
  exists st. destruct Hsh as (Hst & Hp & Hf & He).
  split; [done |]. split; [done |]. unfold field.
  assert (Hin : st ∈ ["queued"; "downloading"; "rendering"; "completed"; "failed"]).
  { destruct Hclass as [[H _] | [[-> _] | [H _]]]; [pick H; member | member | pick H; member]. }
  clear Hclass Hst Hp. pick Hin; cbn in Hf, He.
  all: try destruct Hf as (path & Hpath & Hf); try destruct He as (msg & He).
  all: rewrite Hf, He; cbn [default from_option Datatypes.id].
  all: repeat split; try done; try (by left); try (by right).
Qed.

(** X18. No reachable state shows a job as preparing: that status is
    written and replaced, by rendering or failed, without the program
    waiting in between, so no status query ever answers it. *)
Theorem preparing_never_polled (s : server) (id : string) :
  reachable s ->
  status_of id (jobs s) ≠ VStr "preparing" /\
  forall fields, content (getStatus id s) = JsonBody fields ->
                 lookup_own fields "status" ≠ Some (VStr "preparing").
Proof.
  intros Hreach. apply reachable_coherent in Hreach.
  unfold status_of, getStatus. destruct (jobs s !! id) as [job |] eqn:Hjob.
  - destruct (coherent_status s id job Hreach Hjob) as (st & (Hst & _) & Hclass).
    assert (Hne : st ≠ "preparing").
    { destruct Hclass as [[H _] | [[-> _] | [H _]]]; [pick H | | pick H]; discriminate. }
    unfold field. rewrite Hst. cbn [default from_option Datatypes.id].
    split; [congruence |].
    intros fields [= <-]. rewrite filter_cons_True by reflexivity.
    cbn [lookup_own String.eqb Ascii.eqb Bool.eqb]. congruence.
  - split; [discriminate |]. intros fields [= <-]. discriminate.
Qed.

(** X19. The worker has one job at a time: in a reachable state a job that
    is downloading or rendering is the running one, so two jobs are never in
    progress together. *)
Theorem one_job_in_progress (s : server) (id1 id2 : string) (job1 job2 : Job)
    (st1 st2 : string) :
  reachable s ->
  jobs s !! id1 = Some job1 -> job1 !! "status" = Some (VStr st1) ->
  jobs s !! id2 = Some job2 -> job2 !! "status" = Some (VStr st2) ->
  st1 ∈ ["downloading"; "rendering"] ->
  st2 ∈ ["downloading"; "rendering"] ->
  id1 = id2 /\ exists p, running s = Some (id1, p).
Proof.
  intros Hreach Hjob1 Hst1 Hjob2 Hst2 Hin1 Hin2. apply reachable_coherent in Hreach.
  assert (Hrun : forall id job st,
             jobs s !! id = Some job -> job !! "status" = Some (VStr st) ->
             st ∈ ["downloading"; "rendering"] -> exists p, running s = Some (id, p)).
  { intros id job st Hjob Hst Hin.
    destruct (coherent_status s id job Hreach Hjob) as (st' & (Hst' & _) & Hclass).
    assert (st' = st) as -> by congruence.
    destruct Hclass as [[_ H] | [[-> _] | [H _]]];
      [done | absurd_member Hin | pick H; absurd_member Hin]. }
  destruct (Hrun id1 job1 st1 Hjob1 Hst1 Hin1) as [p1 Hp1].
  destruct (Hrun id2 job2 st2 Hjob2 Hst2 Hin2) as [p2 Hp2].
  split; [congruence | by exists p1].
Qed.

(** X20. In a reachable state a job is shown as queued exactly while its
    task is waiting in the queue. *)
Theorem queued_iff_waiting (s : server) (id : string) (job : Job) :
  reachable s ->
  jobs s !! id = Some job ->
  (job !! "status" = Some (VStr "queued") <-> id ∈ (queue s).*1).
Proof.
  intros Hreach Hjob. apply reachable_coherent in Hreach.
  destruct (coherent_status s id job Hreach Hjob) as (st & (Hst & _) & Hclass).
  split.
  - intros Hq. assert (st = "queued") as -> by congruence.
    destruct Hclass as [[H _] | [[_ H] | [H _]]];
      [absurd_member H | done | absurd_member H].
  - intros Hin. destruct (coh_waiting s Hreach id Hin) as (job' & Hjob' & (Hst' & _)).
    congruence.
Qed.

Lemma task_step (id cur : string) (p : Proc unit) (jobs0 : JobTable) (job : Job)
    (q : list (string * value)) :
  closing id cur p ->
  jobs0 !! id = Some job ->
  shaped cur job ->
  exists job' st',
    (forall e, (run_sync p jobs0).2 ≠ Throw e) /\
    jobs (settle id (run_sync p jobs0) q) !! id = Some job' /\
    shaped st' job' /\ rtc forward cur st' /\
    forall id', id' ≠ id -> jobs (settle id (run_sync p jobs0) q) !! id' = jobs0 !! id'.
Proof.
  intros Hclosing Hjob Hshape.
  destruct (run_sync_closing id cur p Hclosing jobs0 job Hjob Hshape)
    as (jobs1 & p' & job' & st' & Hrun & Hother & Hid & Hsh & Hrtc & Hp').
  rewrite Hrun. exists job', st'.
  destruct Hp' as [[-> _] | [Hpaused _]].
  - rewrite settle_ended. cbn [snd jobs].
    split; [discriminate |]. by do 3 (split; [done |]).
  - rewrite (settle_paused id st') by done. cbn [snd jobs].
    split; [by intros e -> |]. by do 3 (split; [done |]).
Qed.

Lemma moved_refl (st : string) (job : Job) : shaped st job -> moved job job.
Proof. intros [Hst _]. by exists st, st. Qed.

Lemma moved_trans (a b c : Job) : moved a b -> moved b c -> moved a c.
Proof.
  intros (st & st1 & Ha & Hb & Hrtc & Hterm) (st1' & st2 & Hb' & Hc & Hrtc' & Hterm').
  assert (st1' = st1) as -> by congruence.
  exists st, st2. split; [done |]. split; [done |]. split; [by etrans |].
  intros Hin. specialize (Hterm Hin). subst b.
  assert (st1 = st) as -> by congruence. by apply Hterm'.
Qed.

(** A step of the task of a pending job, seen from the record of any job. *)
Lemma task_moved (s : server) (jobId cur : string) (p : Proc unit)
    (q : list (string * value)) (job0 : Job) (id : string) (job : Job) :
  coherent s ->
  jobId ∈ pending_ids s ->
  closing jobId cur p ->
  jobs s !! jobId = Some job0 ->
  shaped cur job0 ->
  jobs s !! id = Some job ->
  exists job', jobs (settle jobId (run_sync p (jobs s)) q) !! id = Some job' /\ moved job job'.
Proof.
  intros Hcoh Hpend Hclosing Hjob0 Hshape Hjob.
  destruct (coherent_status s id job Hcoh Hjob) as (st & Hsh & Hclass).
  destruct (task_step jobId cur p (jobs s) job0 q Hclosing Hjob0 Hshape)
    as (job' & st' & _ & Hid & Hsh' & Hrtc & Hother).
  destruct (decide (id = jobId)) as [-> | Hne].
  - rewrite Hjob0 in Hjob. injection Hjob as <-.
    exists job'. split; [done |].
    exists cur, st'. destruct Hshape as [Hst0 _]. destruct Hsh' as [Hst' _].
    split; [done |]. split; [done |]. split; [done |].
    intros Hterm. exfalso.
    assert (st = cur) as -> by (destruct Hsh; congruence).
    destruct Hclass as [[H _] | [[-> _] | [_ H]]];
      [pick H; absurd_member Hterm | absurd_member Hterm | by apply H].
  - exists job. split; [by rewrite (Hother id Hne) | by apply (moved_refl st)].
Qed.

Lemma start_next_moved (s : server) (id : string) (job : Job) :
  coherent s ->
  jobs s !! id = Some job ->
  exists job', jobs (start_next s) !! id = Some job' /\ moved job job'.
Proof.
  intros Hcoh Hjob.
  destruct (coherent_status s id job Hcoh Hjob) as (st & Hsh & _).
  assert (Hsame : exists job', jobs s !! id = Some job' /\ moved job job').
  { exists job. split; [done | by apply (moved_refl st)]. }
  unfold start_next. destruct (running s) as [task |] eqn:Hrun; [done |].
  destruct (queue s) as [| [jobId cfg] rest] eqn:Hq; [done |].
  destruct (coh_waiting s Hcoh jobId) as (job0 & Hjob0 & Hshape).
  { rewrite Hq. cbn. apply list_elem_of_here. }
  apply (task_moved s jobId "queued" _ rest job0); try done.
  - unfold pending_ids. rewrite Hrun, Hq. cbn. apply list_elem_of_here.
  - apply processJob_closing.
Qed.

(** X21. From a reachable state, a step of the server keeps every job it
    knows, and takes the status of each either nowhere or forward in the
    order queued, downloading, preparing, rendering, completed, failed
    being reached from downloading, preparing or rendering; the record of a
    job that has completed or failed is never written again. *)
Theorem step_moves_forward (s s' : server) (id : string) (job : Job) :
  reachable s ->
  step s s' ->
  jobs s !! id = Some job ->
  exists job' st st',
    jobs s' !! id = Some job' /\
    job !! "status" = Some (VStr st) /\
    job' !! "status" = Some (VStr st') /\
    rtc forward st st' /\
    (rank st <= rank st')%nat /\
    (st ∈ ["completed"; "failed"] -> job' = job).
Proof.
  intros Hreach Hstep Hjob. apply reachable_coherent in Hreach.
  assert (Hmoved : exists job', jobs s' !! id = Some job' /\ moved job job').
  { destruct Hstep as [s jobId payload Hfresh | jobs0 jobId cfg rest
                       | jobs0 queue0 jobId R c k r].
    - destruct (postRender_state jobId payload s) as [-> | ->].
      + destruct (coherent_status s id job Hreach Hjob) as (st & Hsh & _).
        exists job. split; [done | by apply (moved_refl st)].
      + apply start_next_moved; [by apply coherent_enqueued |].
        unfold enqueued. cbn [jobs]. rewrite lookup_insert_ne; [done |].
        intros ->. congruence.
    - by apply (start_next_moved (mkServer jobs0 ((jobId, cfg) :: rest) None)).
    - destruct (coh_running _ Hreach jobId (Await c k) eq_refl)
        as (cur & job0 & Hjob0 & Hshape & _ & Hpaused).
      apply (task_moved (mkServer jobs0 queue0 (Some (jobId, Await c k))) jobId cur
               (k r) queue0 job0); try done.
      unfold pending_ids. cbn. apply list_elem_of_here. }
  destruct Hmoved as (job' & Hjob' & st & st' & Hst & Hst' & Hrtc & Hterm).
  exists job', st, st'. repeat split; try done. by apply rtc_forward_rank.
Qed.

(** X22. The promise of a task never rejects: from a reachable state,
    neither the start of the oldest waiting task nor the resumption of the
    running one ends by throwing, so the rejection handler of [queue.add]
    (line 37) is never run. *)
Theorem task_never_rejects (s : server) :
  reachable s ->
  (forall jobs0 id cfg rest (e : exn),
      s = mkServer jobs0 ((id, cfg) :: rest) None ->
      (run_sync (processJob id cfg) jobs0).2 ≠ Throw e) /\
  (forall jobs0 queue0 id R (c : call R) k (r : exn + R) (e : exn),
      s = mkServer jobs0 queue0 (Some (id, Await c k)) ->
      (run_sync (k r) jobs0).2 ≠ Throw e).
Proof.
  intros Hreach. apply reachable_coherent in Hreach. split.
  - intros jobs0 id cfg rest e ->.
    destruct (coh_waiting _ Hreach id) as (job0 & Hjob0 & Hshape);
      [cbn; apply list_elem_of_here |].
    destruct (task_step id "queued" (processJob id cfg) jobs0 job0 rest
                (processJob_closing id cfg) Hjob0 Hshape) as (_ & _ & Hno & _).
    apply Hno.
  - intros jobs0 queue0 id R c k r e ->.
    destruct (coh_running _ Hreach id (Await c k) eq_refl)
      as (cur & job0 & Hjob0 & Hshape & _ & Hpaused).
    destruct (task_step id cur (k r) jobs0 job0 queue0 (Hpaused r) Hjob0 Hshape)
      as (_ & _ & Hno & _).
    apply Hno.
Qed.

(** ** The order of the states *)





(** ** An error of the write stream *)



End Renderer.

(** * The properties on the sample inputs *)

(** The request of the scenario compiles to seven parts. *)
Example two_clips_parts :
  buildFilterParts sample_runtime two_clips =
    inr [ "[0:v]trim=start=0:end=5,setpts=PTS-STARTPTS[v0]";
          "[0:a]atrim=start=0:end=5,asetpts=PTS-STARTPTS[a0]";
          "[0:v]trim=start=10:end=12,setpts=PTS-STARTPTS[v1]";
          "[0:a]atrim=start=10:end=12,asetpts=PTS-STARTPTS[a1]";
          "[v0][v1]concat=n=2:v=1:a=0[vout]";
          "[a0][a1]concat=n=2:v=0:a=1[aout]";
          "[vout]scale=1920:1080:force_original_aspect_ratio=decrease,pad=1920:1080:(ow-iw)/2:(oh-ih)/2,fps=30[vfinal]" ].
Proof. reflexivity. Qed.

Lemma two_clips_valid :
  Forall2 valid_clip [clip 0 5; clip 10 12]
          [(Finite (Qc_of_Z 0), Finite (Qc_of_Z 5)); (Finite (Qc_of_Z 10), Finite (Qc_of_Z 12))].
Proof.
  repeat constructor; try discriminate.
Defined.

(** C1 on the request of the scenario. *)
Lemma filter_graph_trims_and_concats_witness :
  exists parts : list string,
    buildFilterParts sample_runtime two_clips = inr parts /\
    length parts = 7 /\
    length (filter is_video_trim parts) = 2 /\
    length (filter is_audio_trim parts) = 2.
Proof.
  destruct (filter_graph_trims_and_concats sample_runtime two_clips
              [clip 0 5; clip 10 12]
              [(Finite (Qc_of_Z 0), Finite (Qc_of_Z 5));
               (Finite (Qc_of_Z 10), Finite (Qc_of_Z 12))]
              "1920" "1080" "30")
    as (parts & final & Hparts & _ & Hlen & _ & _ & _ & Hv & Ha).
  - reflexivity.
  - discriminate.
  - exact two_clips_valid.
  - reflexivity.
  - reflexivity.
  - reflexivity.
  - exists parts. repeat split; assumption.
Defined.

(** C2, as first stated, fails: a clip that ends at [Infinity] (what the
    JSON body [1e999] decodes to) has a bound that is not a finite number,
    and it compiles. *)
Lemma infinite_bound_accepted :
  let c := VObj [("start", num 0); ("end", VNum Infinity)] in
  let cfg := VObj [("sourceUrl", VStr "https://x/video.mp4"); ("clips", VArr [c])] in
  getProp cfg "clips" = inr (VArr [c]) /\
  Exists not_finite_or_inverted [c] /\
  buildFilterParts sample_runtime cfg =
    inr [ "[0:v]trim=start=0:end=Infinity,setpts=PTS-STARTPTS[v0]";
          "[0:a]atrim=start=0:end=Infinity,asetpts=PTS-STARTPTS[a0]";
          "[v0]concat=n=1:v=1:a=0[vout]";
          "[a0]concat=n=1:v=0:a=1[aout]";
          "[vout]scale=1920:1080:force_original_aspect_ratio=decrease,pad=1920:1080:(ow-iw)/2:(oh-ih)/2,fps=30[vfinal]" ].
Proof.
  cbv zeta. split; [reflexivity |]. split; [| reflexivity].
  apply Exists_cons_hd. unfold not_finite_or_inverted. cbn.
  right. left. intros [q Hq]. discriminate Hq.
Qed.

(** C2, as amended, on a request whose second clip has [end = start]. *)
Lemma refused_clip_fails_compilation_witness :
  let cfg := VObj [("sourceUrl", VStr "https://x/video.mp4");
                   ("clips", VArr [clip 0 5; clip 7 7])] in
  (exists e, buildFilterParts sample_runtime cfg = inl e) /\
  omap engine_call (calls world_ok (processJob sample_runtime "job-1" cfg)) = [] /\
  VStr "rendering" ∉
    written_status <$>
      (run world_ok (processJob sample_runtime "job-1" cfg) {[ "job-1" := queued_record ]}).2.
Proof.
  cbv zeta.
  destruct (refused_clip_fails_compilation sample_runtime
              (VObj [("sourceUrl", VStr "https://x/video.mp4");
                     ("clips", VArr [clip 0 5; clip 7 7])])
              [clip 0 5; clip 7 7]) as [Hthrow Hnever].
  - reflexivity.
  - apply Exists_cons_tl, Exists_cons_hd. unfold refused_clip. cbn.
    right. right. reflexivity.
  - split; [exact Hthrow | apply Hnever].
Defined.

(** On the request of the scenario, whose clips are valid, the engine is
    called. *)
Example engine_called_on_valid_clips :
  omap engine_call (calls world_ok (processJob sample_runtime "job-1" two_clips)) =
    [ ("/usr/bin/ffmpeg",
       ffArgs "/tmp/render-abc123/source.mp4"
              [ "[0:v]trim=start=0:end=5,setpts=PTS-STARTPTS[v0]";
                "[0:a]atrim=start=0:end=5,asetpts=PTS-STARTPTS[a0]";
                "[0:v]trim=start=10:end=12,setpts=PTS-STARTPTS[v1]";
                "[0:a]atrim=start=10:end=12,asetpts=PTS-STARTPTS[a1]";
                "[v0][v1]concat=n=2:v=1:a=0[vout]";
                "[a0][a1]concat=n=2:v=0:a=1[aout]";
                "[vout]scale=1920:1080:force_original_aspect_ratio=decrease,pad=1920:1080:(ow-iw)/2:(oh-ih)/2,fps=30[vfinal]" ]
              "/tmp/render-abc123/out.mp4",
       (10 * 1024 * 1024)%N) ].
Proof. reflexivity. Qed.

(** Validation is done clip by clip: when the second clip is refused the
    array already holds the trims of the first, and is dropped. *)
Example trims_before_refused_clip :
  let cfg := VObj [("sourceUrl", VStr "https://x/video.mp4");
                   ("clips", VArr [clip 0 5; clip 7 7])] in
  filterGraph sample_runtime cfg [] =
    (inl (Error "clip.end must be > clip.start"),
     [ "[0:v]trim=start=0:end=5,setpts=PTS-STARTPTS[v0]";
       "[0:a]atrim=start=0:end=5,asetpts=PTS-STARTPTS[a0]" ]) /\
  buildFilterParts sample_runtime cfg = inl (Error "clip.end must be > clip.start").
Proof. split; reflexivity. Qed.

(** The four courses of a job. *)
Example history_completed :
  status_history world_ok (processJob sample_runtime "job-1" two_clips) "job-1"
                 {[ "job-1" := queued_record ]} =
    [VStr "queued"; VStr "downloading"; VStr "preparing"; VStr "rendering"; VStr "completed"].
Proof. reflexivity. Qed.

Example history_unreachable_source :
  status_history world_unreachable (processJob sample_runtime "job-1" two_clips) "job-1"
                 {[ "job-1" := queued_record ]} =
    [VStr "queued"; VStr "downloading"; VStr "failed"].
Proof. reflexivity. Qed.

Example history_refused_clip :
  status_history world_ok
                 (processJob sample_runtime "job-1"
                    (VObj [("sourceUrl", VStr "https://x/video.mp4");
                           ("clips", VArr [clip 0 5; clip 7 7])]))
                 "job-1" {[ "job-1" := queued_record ]} =
    [VStr "queued"; VStr "downloading"; VStr "preparing"; VStr "failed"].
Proof. reflexivity. Qed.

Example history_engine_failure :
  status_history world_engine_fails (processJob sample_runtime "job-1" two_clips) "job-1"
                 {[ "job-1" := queued_record ]} =
    [VStr "queued"; VStr "downloading"; VStr "preparing"; VStr "rendering"; VStr "failed"].
Proof. reflexivity. Qed.




(** The record the process ends with: the job is downloading, with no
    error. *)
Example write_error_record :
  (exec host_disk_full (processJob sample_runtime "job-1" two_clips) one_queued).1.2
    !! "job-1" =
    Some {[ "status" := VStr "downloading"; "progress" := num 5;
            "file" := VNull; "error" := VNull ]}.
Proof. reflexivity. Qed.

(** X23 on the scenario, with a source that cannot be fetched. *)
Lemma processJob_failure_recorded_witness :
  exists job : Job,
    (run world_unreachable (processJob sample_runtime "job-1" two_clips)
         {[ "job-1" := queued_record ]}).1.2 !! "job-1" = Some job /\
    job !! "status" = Some (VStr "failed") /\
    job !! "error" = Some (VStr "TypeError: fetch failed") /\
    job !! "progress" = Some (num 0).
Proof.
  destruct (processJob_failure_recorded sample_runtime world_unreachable "job-1" two_clips
              {[ "job-1" := queued_record ]}) as [_ Hcaught].
  destruct (Hcaught (TypeError "fetch failed")
              (setJob "job-1" {[ "status" := VStr "downloading"; "progress" := num 5 ]}
                      {[ "job-1" := queued_record ]})
              [("job-1", {[ "status" := VStr "downloading"; "progress" := num 5 ]})])
    as (final & job & Hrun & Hjob & Hst & Herr & _ & Hp & _).
  - reflexivity.
  - exists job. rewrite Hrun. repeat split; assumption.
Defined.

(** C5 on a request that asks for 1280 by 720 and leaves the frame rate. *)
Lemma scale_pad_stage_witness :
  let cfg := VObj [("sourceUrl", VStr "https://x/video.mp4");
                   ("clips", VArr [clip 0 5; clip 10 12]);
                   ("width", num 1280); ("height", num 720)] in
  exists parts : list string,
    buildFilterParts sample_runtime cfg = inr parts /\
    last parts =
      Some "[vout]scale=1280:720:force_original_aspect_ratio=decrease,pad=1280:720:(ow-iw)/2:(oh-ih)/2,fps=30[vfinal]".
Proof.
  cbv zeta.
  destruct (scale_pad_stage sample_runtime
              (VObj [("sourceUrl", VStr "https://x/video.mp4");
                     ("clips", VArr [clip 0 5; clip 10 12]);
                     ("width", num 1280); ("height", num 720)])
              [clip 0 5; clip 10 12]
              [(Finite (Qc_of_Z 0), Finite (Qc_of_Z 5));
               (Finite (Qc_of_Z 10), Finite (Qc_of_Z 12))])
    as (parts & Hparts & Hlast & _).
  - reflexivity.
  - exact two_clips_valid.
  - right. exists (Qc_of_Z 1280). split; reflexivity.
  - right. exists (Qc_of_Z 720). split; reflexivity.
  - left. reflexivity.
  - exists parts. split; [exact Hparts | exact Hlast].
Defined.

(** C6 on the scenario with [clips: []]. *)
Lemma postRender_rejects_invalid_witness :
  let payload := VObj [("sourceUrl", VStr "https://x/video.mp4"); ("clips", VArr [])] in
  postRender sample_runtime "job-1" payload initial =
    (mkResponse 400
       (JsonBody [("error", VStr "Invalid payload. Need sourceUrl and non-empty clips[]")]),
     initial).
Proof.
  cbv zeta.
  pose proof (postRender_rejects_invalid sample_runtime "job-1"
                (VObj [("sourceUrl", VStr "https://x/video.mp4"); ("clips", VArr [])])
                initial) as H.
  destruct (postRender sample_runtime "job-1" _ initial) as [[c b] s'].
  destruct H as (Hc & Hb & _ & Hs).
  - right. right. reflexivity.
  - cbn in Hc, Hb. by rewrite Hc, Hb, Hs.
Defined.

(** The states of the server once the request of the scenario is accepted,
    its task started at once, and once a second request is accepted behind
    it. *)
Lemma accepted_reachable : reachable sample_runtime (one_started sample_runtime).
Proof.
  eapply reachable_step; [apply reachable_initial |].
  apply step_post. reflexivity.
Defined.

Lemma behind_step :
  step sample_runtime (one_started sample_runtime) (one_behind sample_runtime).
Proof. exact (step_post sample_runtime (one_started sample_runtime) "job-2" two_clips eq_refl). Defined.

Lemma behind_reachable : reachable sample_runtime (one_behind sample_runtime).
Proof. exact (reachable_step sample_runtime _ _ accepted_reachable behind_step). Defined.

(** C7 in the second state: the job [job-2] is queued, its [downloadUrl] is
    [null]; the job [job-3] is unknown. *)
Lemma getStatus_document_witness :
  let s := one_behind sample_runtime in
  (exists (st : string) (p : Z) (err : value),
      queued_record !! "status" = Some (VStr st) /\
      (err = VNull \/ exists msg, err = VStr msg) /\
      getStatus "job-2" s =
        mkResponse 200
          (JsonBody [ ("status", VStr st); ("progress", num p);
                      ("downloadUrl", if bool_decide (st = "completed")
                                      then VStr ("/download/" ++ "job-2") else VNull);
                      ("error", err) ])) /\
  getStatus "job-3" s = mkResponse 404 (JsonBody [("error", VStr "Not found")]).
Proof.
  cbv zeta. split.
  - exact (getStatus_document sample_runtime _ "job-2" behind_reachable).
  - exact (getStatus_document sample_runtime _ "job-3" behind_reachable).
Defined.

Example polled_status_documents :
  getStatus "job-1" (one_behind sample_runtime) =
    mkResponse 200 (JsonBody [ ("status", VStr "downloading"); ("progress", num 5);
                               ("downloadUrl", VNull); ("error", VNull) ]) /\
  getStatus "job-2" (one_behind sample_runtime) =
    mkResponse 200 (JsonBody [ ("status", VStr "queued"); ("progress", num 0);
                               ("downloadUrl", VNull); ("error", VNull) ]).
Proof. split; reflexivity. Qed.

(** C8, as first stated, fails: in that state the download query of the
    unknown job [job-3], that of the queued job [job-2] and that of the
    downloading job [job-1] get one and the same answer. *)
Lemma download_signals_coincide :
  let s := one_behind sample_runtime in
  reachable sample_runtime s /\
  jobs s !! "job-3" = None /\
  (exists job, jobs s !! "job-2" = Some job /\ job !! "status" = Some (VStr "queued")) /\
  (exists job, jobs s !! "job-1" = Some job /\ job !! "status" = Some (VStr "downloading")) /\
  getDownload "job-3" s = getDownload "job-2" s /\
  getDownload "job-3" s = getDownload "job-1" s.
Proof.
  cbv zeta. split; [exact behind_reachable |]. split; [reflexivity |].
  split; [eexists; split; reflexivity |].
  split; [eexists; split; reflexivity |].
  split; reflexivity.
Qed.

(** C8, as amended, in that state. *)
Lemma getDownload_signals_witness :
  getDownload "job-3" (one_behind sample_runtime) = mkResponse 404 (TextBody "Not ready").
Proof.
  exact (getDownload_signals sample_runtime _ "job-3" behind_reachable).
Defined.

(** A completed job is reachable, and its file is then sent. *)
Example completed_download :
  let s := mkServer (run world_ok (processJob sample_runtime "job-1" two_clips)
                         {[ "job-1" := queued_record ]}).1.2 [] None in
  reachable sample_runtime s /\
  getDownload "job-1" s =
    mkResponse 200 (Attachment (VStr "/tmp/render-abc123/out.mp4") "export.mp4").
Proof.
  cbv zeta. split; [| reflexivity].
  apply (reachable_run sample_runtime world_ok "job-1" _
           (processJob_live sample_runtime "job-1" two_clips)
           {[ "job-1" := queued_record ]} []).
  exact accepted_reachable.
Qed.

(** C10 on a request with [width: 0]. *)
Lemma falsy_dimension_is_default_witness :
  let cfg := VObj [("width", num 0); ("sourceUrl", VStr "https://x/video.mp4");
                   ("clips", VArr [clip 0 5; clip 10 12])] in
  buildFilterParts sample_runtime cfg = buildFilterParts sample_runtime two_clips /\
  exists parts : list string,
    buildFilterParts sample_runtime cfg = inr parts /\
    last parts =
      Some "[vout]scale=1920:1080:force_original_aspect_ratio=decrease,pad=1920:1080:(ow-iw)/2:(oh-ih)/2,fps=30[vfinal]".
Proof.
  cbv zeta.
  pose proof (falsy_dimension_is_default sample_runtime "width" (num 0)
                [("sourceUrl", VStr "https://x/video.mp4");
                 ("clips", VArr [clip 0 5; clip 10 12])]
                [clip 0 5; clip 10 12]
                [(Finite (Qc_of_Z 0), Finite (Qc_of_Z 5));
                 (Finite (Qc_of_Z 10), Finite (Qc_of_Z 12))]
                (list_elem_of_here _ _) eq_refl) as H.
  cbv zeta in H. destruct H as [Heq Hdflt]. split; [exact Heq |].
  destruct Hdflt as (parts & ws & hs & fs & Hparts & Hlast & Hw & Hh & Hf).
  - reflexivity.
  - exact two_clips_valid.
  - intros k' Hk' Hne. left.
    repeat (apply elem_of_cons in Hk' as [-> | Hk']);
      [by destruct Hne | reflexivity | reflexivity | by apply elem_of_nil in Hk'].
  - exists parts. split; [exact Hparts |]. rewrite Hlast, Hw, Hh, Hf. reflexivity.
Defined.

(** * More properties on the sample inputs *)

Lemma setJob_unknown_witness :
  setJob "job-9" {[ "status" := VStr "failed" ]} one_queued !! "job-9" =
    Some {[ "status" := VStr "failed" ]}.
Proof.
  exact (proj1 (setJob_unknown "job-9" {[ "status" := VStr "failed" ]} one_queued eq_refl)).
Defined.

Lemma setJob_commute_witness :
  setJob "job-1" {[ "progress" := num 5 ]} (setJob "job-2" {[ "progress" := num 20 ]} one_queued) =
  setJob "job-2" {[ "progress" := num 20 ]} (setJob "job-1" {[ "progress" := num 5 ]} one_queued).
Proof.
  apply (setJob_commute "job-1" "job-2"). discriminate.
Defined.

Lemma postRender_accepts_witness :
  (postRender sample_runtime "job-1" two_clips initial).1 =
    mkResponse 200 (JsonBody [("jobId", VStr "job-1")]) /\
  getStatus "job-1" (one_started sample_runtime) =
    mkResponse 200 (JsonBody [ ("status", VStr "downloading"); ("progress", num 5);
                               ("downloadUrl", VNull); ("error", VNull) ]) /\
  queue (one_behind sample_runtime) = [("job-2", two_clips)] /\
  getStatus "job-2" (one_behind sample_runtime) =
    mkResponse 200 (JsonBody [ ("status", VStr "queued"); ("progress", num 0);
                               ("downloadUrl", VNull); ("error", VNull) ]).
Proof.
  destruct (postRender_accepts sample_runtime "job-1" two_clips initial (clip 0 5)
              [clip 10 12] eq_refl eq_refl) as (Hres & _ & Hidle).
  destruct (Hidle eq_refl eq_refl) as (_ & _ & _ & Hst).
  destruct (postRender_accepts sample_runtime "job-2" two_clips (one_started sample_runtime)
              (clip 0 5) [clip 10 12] eq_refl eq_refl) as (_ & Hbusy & _).
  destruct Hbusy as (_ & Hq & _ & Hqueued); [eexists; reflexivity |].
  split; [exact Hres |]. split; [exact Hst |]. split; [exact Hq | exact Hqueued].
Defined.

Lemma download_bad_status_witness :
  run world_not_found (download (VStr "https://x/video.mp4") "/tmp/d/source.mp4") one_queued =
    (inl (Error "Download failed: 404 Not Found"), one_queued, []).
Proof.
  exact (proj1 (download_bad_status world_not_found (VStr "https://x/video.mp4")
                  "/tmp/d/source.mp4" one_queued (mkFetchResponse false 404 "Not Found")
                  eq_refl eq_refl)).
Defined.

Lemma download_outcome_witness :
  calls world_ok (download (VStr "https://x/video.mp4") "/tmp/d/source.mp4") =
    [ a_call (Fetch (VStr "https://x/video.mp4"));
      a_call (Mkdir "/tmp/d");
      a_call (PipeToFile (mkFetchResponse true 200 "OK") "/tmp/d/source.mp4") ].
Proof.
  exact (proj2 (proj2 (download_outcome world_ok (VStr "https://x/video.mp4")
                         "/tmp/d/source.mp4" one_queued)
                  (mkFetchResponse true 200 "OK") eq_refl eq_refl)).
Defined.

Lemma first_refused_clip_reported_witness :
  buildFilterParts sample_runtime
    (VObj [("sourceUrl", VStr "https://x/video.mp4");
           ("clips", VArr [clip 0 5; VObj [("start", VStr "7"); ("end", VNull)]; clip 9 9])]) =
    inl (Error "clip.start must be a number").
Proof.
  apply (first_refused_clip_reported sample_runtime _ [clip 0 5]
           [(Finite (Qc_of_Z 0), Finite (Qc_of_Z 5))]
           (VObj [("start", VStr "7"); ("end", VNull)]) [clip 9 9] (VStr "7") VNull).
  - reflexivity.
  - repeat constructor; discriminate.
  - reflexivity.
  - reflexivity.
  - left. discriminate.
Defined.

Lemma two_clips_accepted : Forall (fun c => ~ refused_clip c) [clip 0 5; clip 10 12].
Proof.
  repeat constructor; unfold refused_clip, not_a_number; cbn;
    intros [[H | H] | [[H | H] | H]]; first [by apply H | discriminate H].
Defined.

Lemma buildFilterParts_succeeds_iff_witness :
  exists parts, buildFilterParts sample_runtime two_clips = inr parts.
Proof.
  apply (proj2 (buildFilterParts_succeeds_iff sample_runtime two_clips
                  [clip 0 5; clip 10 12] eq_refl)).
  split; [exact two_clips_accepted |].
  exists "1920", "1080", "30". repeat split.
Defined.

Lemma text_dimensions_copied_witness :
  exists parts,
    buildFilterParts sample_runtime
      (VObj [("clips", VArr [clip 0 5; clip 10 12]);
             ("width", VStr "iw"); ("height", VStr "-2"); ("fps", VStr "ntsc")]) = inr parts /\
    last parts =
      Some "[vout]scale=iw:-2:force_original_aspect_ratio=decrease,pad=iw:-2:(ow-iw)/2:(oh-ih)/2,fps=ntsc[vfinal]".
Proof.
  apply (text_dimensions_copied sample_runtime
           (VObj [("clips", VArr [clip 0 5; clip 10 12]);
                  ("width", VStr "iw"); ("height", VStr "-2"); ("fps", VStr "ntsc")])
           [clip 0 5; clip 10 12]
           [(Finite (Qc_of_Z 0), Finite (Qc_of_Z 5)); (Finite (Qc_of_Z 10), Finite (Qc_of_Z 12))]
           "iw" "-2" "ntsc"); try reflexivity; try discriminate.
  exact two_clips_valid.
Defined.

Lemma scenario_goes_through :
  goes_through sample_runtime world_ok two_clips "/tmp/render-abc123"
    (VStr "https://x/video.mp4") (mkFetchResponse true 200 "OK")
    [ "[0:v]trim=start=0:end=5,setpts=PTS-STARTPTS[v0]";
      "[0:a]atrim=start=0:end=5,asetpts=PTS-STARTPTS[a0]";
      "[0:v]trim=start=10:end=12,setpts=PTS-STARTPTS[v1]";
      "[0:a]atrim=start=10:end=12,asetpts=PTS-STARTPTS[a1]";
      "[v0][v1]concat=n=2:v=1:a=0[vout]";
      "[a0][a1]concat=n=2:v=0:a=1[aout]";
      "[vout]scale=1920:1080:force_original_aspect_ratio=decrease,pad=1920:1080:(ow-iw)/2:(oh-ih)/2,fps=30[vfinal]" ].
Proof. repeat split. Defined.

Lemma processJob_completes_iff_witness :
  status_of "job-1" (run world_ok (processJob sample_runtime "job-1" two_clips) one_queued).1.2 =
    VStr "completed".
Proof.
  apply (proj1 (processJob_completes_iff sample_runtime world_ok "job-1" two_clips one_queued)).
  eexists _, _, _, _. exact scenario_goes_through.
Defined.

Lemma completed_job_served_witness :
  getDownload "job-1"
    (mkServer (run world_ok (processJob sample_runtime "job-1" two_clips) one_queued).1.2
              [] None) =
    mkResponse 200 (Attachment (VStr "/tmp/render-abc123/out.mp4") "export.mp4").
Proof.
  exact (proj1 (proj2 (completed_job_served sample_runtime world_ok "job-1" two_clips
                         one_queued _ _ _ _ [] None eq_refl scenario_goes_through))).
Defined.

Lemma bad_status_reported_witness :
  exists job,
    (run world_not_found (processJob sample_runtime "job-1" two_clips) one_queued).1.2
      !! "job-1" = Some job /\
    job !! "error" = Some (VStr "Error: Download failed: 404 Not Found").
Proof.
  destruct (bad_status_reported sample_runtime world_not_found "job-1" two_clips one_queued
              "/tmp/render-abc123" (VStr "https://x/video.mp4")
              (mkFetchResponse false 404 "Not Found") eq_refl eq_refl eq_refl eq_refl)
    as (job & Hjob & _ & _ & Herr).
  exists job. split; [exact Hjob | exact Herr].
Defined.

Lemma finished_job_polled_witness :
  (exists path,
      getDownload "job-1"
        (mkServer (run world_engine_fails (processJob sample_runtime "job-1" two_clips)
                       one_queued).1.2 [] None) =
        mkResponse 200 (Attachment (VStr path) "export.mp4")) \/
  getDownload "job-1"
    (mkServer (run world_engine_fails (processJob sample_runtime "job-1" two_clips)
                   one_queued).1.2 [] None) =
    mkResponse 404 (TextBody "Not ready").
Proof.
  destruct (finished_job_polled sample_runtime world_engine_fails "job-1" two_clips
              one_queued [] None eq_refl) as [[_ Hd] | (msg & _ & Hd)].
  - left. exact Hd.
  - right. exact Hd.
Defined.

Lemma record_agrees_with_status_witness :
  exists st,
    queued_record !! "status" = Some (VStr st) /\
    queued_record !! "progress" = Some (num (progress_of st)).
Proof.
  destruct (record_agrees_with_status sample_runtime (one_behind sample_runtime) "job-2"
              queued_record behind_reachable eq_refl) as (st & Hst & Hp & _).
  exists st. split; [exact Hst | exact Hp].
Defined.

Lemma preparing_never_polled_witness :
  let s := one_started sample_runtime in
  status_of "job-1" (jobs s) ≠ VStr "preparing" /\
  forall fields, content (getStatus "job-1" s) = JsonBody fields ->
                 lookup_own fields "status" ≠ Some (VStr "preparing").
Proof.
  exact (preparing_never_polled sample_runtime _ "job-1" accepted_reachable).
Defined.

Lemma one_job_in_progress_witness :
  exists p, running (one_behind sample_runtime) = Some ("job-1", p).
Proof.
  exact (proj2 (one_job_in_progress sample_runtime _ "job-1" "job-1"
                  (spread queued_record {[ "status" := VStr "downloading"; "progress" := num 5 ]})
                  (spread queued_record {[ "status" := VStr "downloading"; "progress" := num 5 ]})
                  "downloading" "downloading" behind_reachable
                  eq_refl eq_refl eq_refl eq_refl
                  (list_elem_of_here _ _) (list_elem_of_here _ _))).
Defined.

Lemma queued_iff_waiting_witness :
  queued_record !! "status" = Some (VStr "queued") <->
  "job-2" ∈ (queue (one_behind sample_runtime)).*1.
Proof.
  exact (queued_iff_waiting sample_runtime (one_behind sample_runtime) "job-2" queued_record
           behind_reachable eq_refl).
Defined.

Lemma step_moves_forward_witness :
  exists job' st st',
    jobs (one_behind sample_runtime) !! "job-1" = Some job' /\
    job' !! "status" = Some (VStr st') /\
    spread queued_record {[ "status" := VStr "downloading"; "progress" := num 5 ]}
      !! "status" = Some (VStr st) /\
    (rank st <= rank st')%nat.
Proof.
  destruct (step_moves_forward sample_runtime (one_started sample_runtime) _ "job-1"
              (spread queued_record {[ "status" := VStr "downloading"; "progress" := num 5 ]})
              accepted_reachable behind_step eq_refl)
    as (job' & st & st' & Hjob & Hst & Hst' & _ & Hrank & _).
  exists job', st, st'. repeat split; assumption.
Defined.

Lemma task_never_rejects_witness :
  (forall jobs0 id cfg rest (e : exn),
      one_behind sample_runtime = mkServer jobs0 ((id, cfg) :: rest) None ->
      (run_sync (processJob sample_runtime id cfg) jobs0).2 ≠ Throw e) /\
  (forall jobs0 queue0 id R (c : call R) k (r : exn + R) (e : exn),
      one_behind sample_runtime = mkServer jobs0 queue0 (Some (id, Await c k)) ->
      (run_sync (k r) jobs0).2 ≠ Throw e).
Proof.
  exact (task_never_rejects sample_runtime (one_behind sample_runtime) behind_reachable).
Defined.
